(** * QrScanner: a shallow embedding of [src/qr-scanner.js]

    The scanner class is embedded method by method.  Pure helpers become
    functions; methods that touch the scanner, its video element or the media
    streams become transformers of a [World] record; every [.then] / [.catch]
    callback and every timer callback is a function of its own, run by the
    event loop [step] when the promise it waits for settles.  What the browser
    decides (camera requests, torch support, decoder answers) is read from a
    [Platform] record of oracles.

    Conventions of the embedding:
    - a method call is one task: its synchronous part together with the
      microtasks it queues on promises that are already settled;
    - time is counted in milliseconds and moves only by [Elapse]; a timer set
      by [setTimeout] fires when the clock reaches its due time;
    - the handlers given to the constructor ([onDecode], [onDecodeError]) are
      observed in the [trace] of the world, they are not run;
    - stream and track objects are shared and mutable, so they live in the
      world ([attached], [stopped]) and the video refers to its stream by id;
    - console output, the styling of the video element and the scan region
      of the live loop are left out: no method branches on them;
    - the clock of the world carries the 300 ms timers of [pause] only: the
      10 s timer of a decode round-trip belongs to the round-trip, and a
      round-trip that times out comes back to the scan loop as the event
      [ScanSettled] with the timeout error, like any other settlement;
    - the promises that wait for events of a worker, a native detector or an
      image element are also written out on their own, with their listeners
      and timers, as folds over the events that reach them. *)

From stdpp Require Import base numbers list strings pretty gmap.

Open Scope string_scope.

(** ** JavaScript values used by the class *)

(** Promise settlements.  Every rejection raised by the class is a string. *)
Inductive Result (A : Type) : Type :=
| Ok (a : A)
| Err (e : string).
Arguments Ok {A} a.
Arguments Err {A} e.

(** [ToBoolean] on the numbers the class tests: zero is falsy.  A missing
    numeric property ([undefined]) is falsy as well and is represented by 0;
    the class reads such a property only behind a truthiness test. *)
Definition truthy (n : Z) : bool := negb (n =? 0)%Z.

(** [a || b] on numbers. *)
Definition js_or (a b : Z) : Z := if truthy a then a else b.

(** [ToBoolean] on strings: the empty string is falsy. *)
Definition truthy_str (s : string) : bool :=
  match s with EmptyString => false | _ => true end.

(** [s.indexOf(needle) !== -1]. *)
Fixpoint has_prefix (p s : string) : bool :=
  match p, s with
  | EmptyString, _ => true
  | String a p', String b s' => if Ascii.eqb a b then has_prefix p' s' else false
  | String _ _, EmptyString => false
  end.

Fixpoint includes (needle s : string) : bool :=
  has_prefix needle s
  || match s with
     | EmptyString => false
     | String _ s' => includes needle s'
     end.

(** ** Rejection values *)

(** [QrScanner.NO_QR_CODE_FOUND] (line 600). *)
Definition NO_QR_CODE_FOUND : string := "No QR code found".

(** The other strings the class rejects with. *)
Definition CAMERA_NOT_FOUND : string := "Camera not found.".
Definition NO_FLASH_AVAILABLE : string := "No flash available".
Definition CAMERA_NOT_STARTED : string := "Camera not started or not available".
Definition UNSUPPORTED_IMAGE : string := "Unsupported image type.".
Definition IMAGE_LOAD_ERROR : string := "Image load error".

(** ** Canvas sampler: [_drawToCanvas] (lines 506-538) *)

(** A scan region object.  Absent properties are 0 (see [truthy]). *)
Record ScanRegion : Type := {
  region_x : Z;
  region_y : Z;
  region_width : Z;
  region_height : Z;
  downScaledWidth : Z;
  downScaledHeight : Z
}.

(** The image source handed to [drawImage]: an image, canvas or video element.
    [img_width] / [img_height] are the element's [width] / [height]
    properties, [videoWidth] / [videoHeight] exist on video elements only. *)
Record Image : Type := {
  img_id : nat;
  img_width : Z;
  img_height : Z;
  videoWidth : Z;
  videoHeight : Z
}.

(** One [drawImage(image, sx, sy, sw, sh, 0, 0, dw, dh)] call: what the bitmap
    holds afterwards. *)
Record Bitmap : Type := {
  bm_image : Image;
  bm_sx : Z; bm_sy : Z; bm_sw : Z; bm_sh : Z;
  bm_dw : Z; bm_dh : Z
}.

(** A canvas element: its dimensions, its bitmap ([None] when blank), whether
    smoothing is enabled on its 2d context, and how many times [width] or
    [height] were assigned (each assignment clears the bitmap). *)
Record Canvas : Type := {
  canvas_width : Z;
  canvas_height : Z;
  pixels : option Bitmap;
  imageSmoothingEnabled : bool;
  resets : nat
}.

(** [document.createElement('canvas')]: 300 x 150, blank. *)
Definition CANVAS_DEFAULT_WIDTH : Z := 300.
Definition CANVAS_DEFAULT_HEIGHT : Z := 150.

Definition createCanvas : Canvas :=
  {| canvas_width := CANVAS_DEFAULT_WIDTH; canvas_height := CANVAS_DEFAULT_HEIGHT;
     pixels := None; imageSmoothingEnabled := true; resets := 0 |}.

(** The DOM setter behind [canvas.width = v]: the attribute is an
    [unsigned long] that reflects a non-negative integer, so [v] wraps modulo
    2^32 and a result above 2^31 - 1 falls back to the default. *)
Definition reflect_dimension (default v : Z) : Z :=
  let u := (v mod 4294967296)%Z in
  if (u <=? 2147483647)%Z then u else default.

Definition set_canvas_width (v : Z) (c : Canvas) : Canvas :=
  {| canvas_width := reflect_dimension CANVAS_DEFAULT_WIDTH v;
     canvas_height := canvas_height c;
     pixels := None;
     imageSmoothingEnabled := imageSmoothingEnabled c;
     resets := S (resets c) |}.

Definition set_canvas_height (v : Z) (c : Canvas) : Canvas :=
  {| canvas_width := canvas_width c;
     canvas_height := reflect_dimension CANVAS_DEFAULT_HEIGHT v;
     pixels := None;
     imageSmoothingEnabled := imageSmoothingEnabled c;
     resets := S (resets c) |}.

(** [context.imageSmoothingEnabled = v] and [context.drawImage(...)]. *)
Definition set_imageSmoothingEnabled (v : bool) (c : Canvas) : Canvas :=
  {| canvas_width := canvas_width c;
     canvas_height := canvas_height c;
     pixels := pixels c;
     imageSmoothingEnabled := v;
     resets := resets c |}.

Definition drawImage (b : Bitmap) (c : Canvas) : Canvas :=
  {| canvas_width := canvas_width c;
     canvas_height := canvas_height c;
     pixels := Some b;
     imageSmoothingEnabled := imageSmoothingEnabled c;
     resets := resets c |}.

(** [scanRegion && scanRegion.f ? scanRegion.f : fallback]. *)
Definition region_or (scanRegion : option ScanRegion) (f : ScanRegion -> Z)
    (fallback : Z) : Z :=
  match scanRegion with
  | Some r => if truthy (f r) then f r else fallback
  | None => fallback
  end.

(** The method returns the pair [canvas, context]; the context is the drawing
    interface of that same canvas, so the model returns the canvas alone. *)
Definition _drawToCanvas (image : Image) (scanRegion : option ScanRegion)
    (canvas : option Canvas) (disallowCanvasResizing : bool) : Canvas :=
  let canvas := match canvas with Some c => c | None => createCanvas end in
  let scanRegionX := region_or scanRegion region_x 0 in
  let scanRegionY := region_or scanRegion region_y 0 in
  let scanRegionWidth :=
    region_or scanRegion region_width (js_or (img_width image) (videoWidth image)) in
  let scanRegionHeight :=
    region_or scanRegion region_height (js_or (img_height image) (videoHeight image)) in
  let canvas :=
    if disallowCanvasResizing then canvas
    else
      let canvasWidth := region_or scanRegion downScaledWidth scanRegionWidth in
      let canvasHeight := region_or scanRegion downScaledHeight scanRegionHeight in
      let canvas :=
        if (canvas_width canvas =? canvasWidth)%Z then canvas
        else set_canvas_width canvasWidth canvas in
      if (canvas_height canvas =? canvasHeight)%Z then canvas
      else set_canvas_height canvasHeight canvas in
  let canvas := set_imageSmoothingEnabled false canvas in
  drawImage
    {| bm_image := image;
       bm_sx := scanRegionX; bm_sy := scanRegionY;
       bm_sw := scanRegionWidth; bm_sh := scanRegionHeight;
       bm_dw := canvas_width canvas; bm_dh := canvas_height canvas |}
    canvas.

(** The extent that [_drawToCanvas] falls back to where a region gives none,
    [image.width || image.videoWidth]: the element's [width] property where
    it is not zero, the video's own width otherwise.  For a video element
    with a [width] attribute it is the attribute, not the width of the frame
    that the video shows (see [covers_native_frame]).  Then the data-model
    invariant of a scan region: inside that extent, with positive
    down-scaled dimensions that a canvas can hold. *)
Definition frame_width (image : Image) : Z := js_or (img_width image) (videoWidth image).
Definition frame_height (image : Image) : Z := js_or (img_height image) (videoHeight image).

Definition MAX_CANVAS_DIMENSION : Z := 2147483647.

Definition region_within (r : ScanRegion) (image : Image) : Prop :=
  (0 <= region_x r /\ 0 <= region_y r /\ 0 < region_width r /\ 0 < region_height r /\
   region_x r + region_width r <= frame_width image /\
   region_y r + region_height r <= frame_height image /\
   frame_width image <= MAX_CANVAS_DIMENSION /\
   frame_height image <= MAX_CANVAS_DIMENSION)%Z.

(** A down-scale target is configured, or left out (0), in each direction. *)
Definition downscale_fits (r : ScanRegion) : Prop :=
  (0 <= downScaledWidth r <= MAX_CANVAS_DIMENSION /\
   0 <= downScaledHeight r <= MAX_CANVAS_DIMENSION)%Z.

Definition downscale_configured (r : ScanRegion) : Prop :=
  (0 < downScaledWidth r /\ 0 < downScaledHeight r)%Z.

(** The buffer size a region asks for: its down-scale target, or its own
    extent where none is configured. *)
Definition required_width (r : ScanRegion) : Z :=
  if truthy (downScaledWidth r) then downScaledWidth r else region_width r.
Definition required_height (r : ScanRegion) : Z :=
  if truthy (downScaledHeight r) then downScaledHeight r else region_height r.

(** ** Camera acquisition: [_getCameraStream], [_getMatchingCameraStream]
    (lines 444-471) *)

(** The value stored under [facingMode] or [deviceId]: the preference itself
    (a soft match) or [{ exact: preference }]. *)
Inductive Preference : Type :=
| Soft (value : string)
| Exact (value : string).

(** A [MediaTrackConstraints] object as the class builds it. *)
Record Constraints : Type := {
  min_width : option Z;
  facingMode : option Preference;
  deviceId : option Preference
}.

Inductive TrackKind : Type := VideoTrack | AudioTrack.

Record Track : Type := {
  track_id : nat;
  track_kind : TrackKind;
  track_label : string
}.

(** A stream as [getUserMedia] hands it out: its identity and its tracks. *)
Record MediaStream : Type := {
  stream_id : nat;
  stream_tracks : list Track
}.

(** The decode engine: a [Worker] or a native [BarcodeDetector]. *)
Inductive EngineKind : Type := WorkerEngine | DetectorEngine.

Record Engine : Type := {
  engine_id : nat;
  engine_kind : EngineKind
}.

(** What a decode request comes to: a payload, no symbol, an engine fault
    with its message, or no answer before the 10 s timeout. *)
Inductive DecodeOutcome : Type :=
| Found (payload : string)
| NothingFound
| Fault (message : string)
| Silent.

(** What the browser decides.  Requests are numbered so that the same request
    may be answered differently when it is repeated. *)
Record Platform : Type := {
  (** [navigator.mediaDevices]: absent, or [getUserMedia({ video: c })] for
      the n-th camera request; [None] is a rejection. *)
  mediaDevices : option (nat -> Constraints -> option MediaStream);
  (** ['ImageCapture' in window]. *)
  imageCapture : bool;
  (** [getPhotoCapabilities()] of a track: its [fillLightMode] list, or
      [None] when the promise rejects. *)
  getPhotoCapabilities : Track -> option (list string);
  (** [track.applyConstraints({ advanced: [{ torch }] })]: [None] when it
      resolves, the error otherwise. *)
  applyConstraints : Track -> bool -> option string;
  (** ['BarcodeDetector' in window] and [getSupportedFormats()]. *)
  barcodeDetector : option (Result (list string));
  (** The answer of an engine to its n-th decode request, on the pixels it
      is handed ([None] is a blank bitmap). *)
  decode : nat -> Engine -> option Bitmap -> DecodeOutcome
}.

Definition is_facing_mode (preferredCamera : string) : bool :=
  String.eqb preferredCamera "environment" || String.eqb preferredCamera "user".

(** The list literal [constraintsToTry] of [_getCameraStream]. *)
Definition width_ladder : list Constraints :=
  [ {| min_width := Some 1024%Z; facingMode := None; deviceId := None |};
    {| min_width := Some 768%Z; facingMode := None; deviceId := None |};
    {| min_width := None; facingMode := None; deviceId := None |} ].

(** [constraint[preferenceType] = preferredCamera]. *)
Definition annotate (camera : string) (annotation : Preference) (c : Constraints)
    : Constraints :=
  if is_facing_mode camera then
    {| min_width := min_width c; facingMode := Some annotation; deviceId := deviceId c |}
  else
    {| min_width := min_width c; facingMode := facingMode c; deviceId := Some annotation |}.

(** The list [constraintsToTry] as [_getCameraStream] leaves it before the
    call of [_getMatchingCameraStream].  A missing argument is [None]; it is
    falsy, as the empty string is. *)
Definition constraintsToTry (preferredCamera : option string) (exact : bool)
    : list Constraints :=
  match preferredCamera with
  | Some camera =>
      if truthy_str camera then
        let annotation := if exact then Exact camera else Soft camera in
        map (annotate camera annotation) width_ladder
      else width_ladder
  | None => width_ladder
  end.

(** The result is the list of constraint sets sent to the platform, in order,
    and the settlement of the returned promise; [n] numbers the first
    request. *)
Fixpoint _getMatchingCameraStream (P : Platform) (constraints : list Constraints)
    (n : nat) : list Constraints * Result MediaStream :=
  match mediaDevices P, constraints with
  | None, _ => ([], Err CAMERA_NOT_FOUND)
  | Some _, [] => ([], Err CAMERA_NOT_FOUND)
  | Some getUserMedia, c :: rest =>
      match getUserMedia n c with
      | Some stream => ([c], Ok stream)
      | None =>
          let '(sent, r) := _getMatchingCameraStream P rest (S n) in
          (c :: sent, r)
      end
  end.

Definition _getCameraStream (P : Platform) (preferredCamera : option string)
    (exact : bool) (n : nat) : list Constraints * Result MediaStream :=
  _getMatchingCameraStream P (constraintsToTry preferredCamera exact) n.

(** ** One-shot decode: [scanImage] and its helpers (lines 280-353, 372-378,
    541-597) *)

(** The first argument of [scanImage], by the branch of [_loadImage] it
    takes: a canvas, video, [ImageBitmap] or [OffscreenCanvas]; an [Image]
    element, whose load succeeds or fails; a [File], [Blob], [URL] or string,
    for which an [Image] is created and loaded; anything else. *)
Inductive Source : Type :=
| Drawable (image : Image)
| ImageElement (image : Image) (loads : bool)
| Locator (image : Image) (loads : bool)
| Unsupported.

Definition _awaitImageLoad (loads : bool) : Result unit :=
  if loads then Ok tt else Err IMAGE_LOAD_ERROR.

Definition _loadImage (source : Source) : Result Image :=
  match source with
  | Drawable image => Ok image
  | ImageElement image loads =>
      match _awaitImageLoad loads with Ok _ => Ok image | Err e => Err e end
  | Locator image loads =>
      match _awaitImageLoad loads with Ok _ => Ok image | Err e => Err e end
  | Unsupported => Err UNSUPPORTED_IMAGE
  end.

(** Messages posted to a worker engine. *)
Inductive WorkerMessage : Type :=
| InversionMode (mode : string)
| DecodeRequest (data : option Bitmap)
| Close.

(** The engines that exist: those created by [createQrEngine], the messages
    posted to workers (engine id and message, oldest first) and the decode
    requests made to engines of either kind (oldest first). *)
Record Engines : Type := {
  created : list Engine;
  posted : list (nat * WorkerMessage);
  submitted : list (Engine * option Bitmap)
}.

Definition is_worker (qrEngine : option Engine) : bool :=
  match qrEngine with
  | Some e => match engine_kind e with WorkerEngine => true | DetectorEngine => false end
  | None => false
  end.

Definition postMessage (e : Engine) (m : WorkerMessage) (st : Engines) : Engines :=
  {| created := created st;
     posted := posted st ++ [(engine_id e, m)];
     submitted := submitted st |}.

Definition record_request (e : Engine) (b : option Bitmap) (st : Engines) : Engines :=
  {| created := created st;
     posted := posted st;
     submitted := submitted st ++ [(e, b)] |}.

Definition createQrEngine (P : Platform) (st : Engines) : Engines * Result Engine :=
  let supportedFormats :=
    match barcodeDetector P with
    | Some formats => formats
    | None => Ok []
    end in
  match supportedFormats with
  | Err e => (st, Err e)
  | Ok formats =>
      let kind :=
        if existsb (String.eqb "qr_code") formats then DetectorEngine else WorkerEngine in
      let engine := {| engine_id := length (created st); engine_kind := kind |} in
      ({| created := created st ++ [engine];
          posted := posted st;
          submitted := submitted st |}, Ok engine)
  end.

Definition _postWorkerMessage (qrEngine : option Engine) (m : WorkerMessage)
    (st : Engines) : Engines :=
  match qrEngine with
  | Some e => if is_worker (Some e) then postMessage e m st else st
  | None => st
  end.

(** How the promise around a decode request settles, for either engine kind. *)
Definition settle (o : DecodeOutcome) : Result string :=
  match o with
  | Found payload => Ok payload
  | NothingFound => Err NO_QR_CODE_FOUND
  | Fault message => Err ("Scanner error: " ++ message)
  | Silent => Err "Scanner error: timeout"
  end.

(** [canvasContext.getImageData(0, 0, canvas.width, canvas.height)], and the
    pixels a native detector reads from the canvas. *)
Definition getImageData (canvas : Canvas) : option Bitmap := pixels canvas.

(** The [.then] callback of [Promise.all] once the bitmap is drawn: the
    decode request to the engine and its settlement. *)
Definition request_decode (P : Platform) (gotExternalWorker : bool)
    (engine : Engine) (canvas : Canvas) (st : Engines) : Engines * Result string :=
  let n := length (submitted st) in
  if is_worker (Some engine) then
    let st :=
      if gotExternalWorker then st
      else postMessage engine (InversionMode "both") st in
    let imageData := getImageData canvas in
    let st := postMessage engine (DecodeRequest imageData) st in
    let st := record_request engine imageData st in
    (st, settle (decode P n engine imageData))
  else
    let st := record_request engine (getImageData canvas) st in
    (st, settle (decode P n engine (getImageData canvas))).

(** [qrEngine || QrScanner.createQrEngine()]: the engine a call works with. *)
Definition engine_of (P : Platform) (qrEngine : option Engine) (st : Engines)
    : Engines * Result Engine :=
  match qrEngine with
  | Some e => (st, Ok e)
  | None => createQrEngine P st
  end.

(** [Promise.all] rejects with the rejection that comes first.  An
    unsupported argument is rejected by [_loadImage] before it returns, so
    ahead of any rejection of [createQrEngine()]; the error of an image
    element arrives with an event of its own, and there the embedding takes
    the engine's rejection to be the earlier one. *)
Definition first_rejection (imageOrFileOrUrl : Source) (engine_error image_error : string)
    : string :=
  match imageOrFileOrUrl with
  | Unsupported => image_error
  | _ => engine_error
  end.

(** The promise [Promise.all([...]).then(...)] that [scanImage] builds first.
    The closure variables [qrEngine] and [canvas] are assigned in the [.then]
    callback, so the result carries their values next to the settlement. *)
Definition scanImage_promise (P : Platform) (gotExternalWorker : bool)
    (imageOrFileOrUrl : Source) (scanRegion : option ScanRegion)
    (qrEngine : option Engine) (canvas : option Canvas)
    (disallowCanvasResizing : bool) (st : Engines)
    : Engines * option Engine * option Canvas * Result string :=
  let '(st, engine) := engine_of P qrEngine st in
  match engine, _loadImage imageOrFileOrUrl with
  | Ok engine, Ok image =>
      let drawn := _drawToCanvas image scanRegion canvas disallowCanvasResizing in
      let '(st, r) := request_decode P gotExternalWorker engine drawn st in
      (st, Some engine, Some drawn, r)
  | Err e, Ok _ => (st, qrEngine, canvas, Err e)
  | Err e, Err e' => (st, qrEngine, canvas, Err (first_rejection imageOrFileOrUrl e e'))
  | Ok _, Err e => (st, qrEngine, canvas, Err e)
  end.

(** [scanImage] calls itself in its [.catch] callback, so the embedding takes
    fuel; [None] is a call that ran out of it.  The [.finally] callback reads
    the closure variable [qrEngine]. *)
Fixpoint scanImage (P : Platform) (fuel : nat) (imageOrFileOrUrl : Source)
    (scanRegion : option ScanRegion) (qrEngine : option Engine)
    (canvas : option Canvas) (disallowCanvasResizing alsoTryWithoutScanRegion : bool)
    (st : Engines) : Engines * option (Result string) :=
  match fuel with
  | O => (st, None)
  | S fuel =>
      let gotExternalWorker := is_worker qrEngine in
      let '(st, qrEngine, canvas, promise) :=
        scanImage_promise P gotExternalWorker imageOrFileOrUrl scanRegion qrEngine
          canvas disallowCanvasResizing st in
      let '(st, promise) :=
        match scanRegion, alsoTryWithoutScanRegion, promise with
        | Some _, true, Err _ =>
            scanImage P fuel imageOrFileOrUrl None qrEngine canvas
              disallowCanvasResizing false st
        | _, _, _ => (st, Some promise)
        end in
      match promise with
      | None => (st, None)
      | Some r =>
          let st :=
            if gotExternalWorker then st else _postWorkerMessage qrEngine Close st in
          (st, Some r)
      end
  end.

(** ** The scanner instance and its surroundings *)

(** The instance fields the methods read and write.  [_qrEnginePromise]
    counts the engine promises the instance has replaced its first one by. *)
Record Scanner : Type := {
  _active : bool;
  _paused : bool;
  _flashOn : bool;
  _preferredCamera : string;
  _qrEnginePromise : nat
}.

(** The video element [$video]: [srcObject] holds a stream id. *)
Record Video : Type := {
  srcObject : option nat;
  paused : bool;
  ended : bool;
  transform : string
}.

(** A pending [start()]: the preference its camera request was built from and
    the closure variable [facingModeGuess]. *)
Record Acquisition : Type := {
  acq_camera : string;
  acq_facingModeGuess : option string
}.

(** A pending [_setFlash(on)]: it waits for [getPhotoCapabilities()] of the
    track that [hasFlash] found. *)
Record FlashRequest : Type := {
  flash_on : bool;
  flash_track : Track
}.

(** What is pending on the event loop: the clock (ms), the due times of the
    300 ms timers of [pause], the callbacks handed to
    [requestAnimationFrame], the scan cycles waiting for [scanImage], the
    camera requests of [start], the torch requests, and the number of
    [getUserMedia] calls made so far. *)
Record Tasks : Type := {
  clock : nat;
  timers : list nat;
  animation_requests : nat;
  inflight : nat;
  acquisitions : list Acquisition;
  flash_requests : list FlashRequest;
  camera_requests : nat
}.

(** What an observer of the scanner sees. *)
Inductive Obs : Type :=
| OnDecode (payload : string)
| OnDecodeError (error : string)
| GetUserMedia (c : Constraints)
| ApplyTorch (track : nat) (on : bool)
| FlashSettled (r : Result unit)
| StartRejected (error : string).

Record World : Type := {
  this : Scanner;
  video : Video;
  document_hidden : bool;
  (** the tracks attached to each stream object *)
  attached : gmap nat (list Track);
  (** the tracks on which [stop()] was called *)
  stopped : gset nat;
  tasks : Tasks;
  (** observations, oldest first *)
  trace : list Obs
}.

(** Field updates. *)
Definition set_active (v : bool) (s : Scanner) : Scanner :=
  {| _active := v; _paused := _paused s; _flashOn := _flashOn s;
     _preferredCamera := _preferredCamera s; _qrEnginePromise := _qrEnginePromise s |}.
Definition set_paused (v : bool) (s : Scanner) : Scanner :=
  {| _active := _active s; _paused := v; _flashOn := _flashOn s;
     _preferredCamera := _preferredCamera s; _qrEnginePromise := _qrEnginePromise s |}.
Definition set_flashOn (v : bool) (s : Scanner) : Scanner :=
  {| _active := _active s; _paused := _paused s; _flashOn := v;
     _preferredCamera := _preferredCamera s; _qrEnginePromise := _qrEnginePromise s |}.
Definition set_preferredCamera (v : string) (s : Scanner) : Scanner :=
  {| _active := _active s; _paused := _paused s; _flashOn := _flashOn s;
     _preferredCamera := v; _qrEnginePromise := _qrEnginePromise s |}.
Definition set_qrEnginePromise (v : nat) (s : Scanner) : Scanner :=
  {| _active := _active s; _paused := _paused s; _flashOn := _flashOn s;
     _preferredCamera := _preferredCamera s; _qrEnginePromise := v |}.

Definition set_srcObject (v : option nat) (e : Video) : Video :=
  {| srcObject := v; paused := paused e; ended := ended e; transform := transform e |}.
Definition set_video_paused (v : bool) (e : Video) : Video :=
  {| srcObject := srcObject e; paused := v; ended := ended e; transform := transform e |}.
Definition set_transform (v : string) (e : Video) : Video :=
  {| srcObject := srcObject e; paused := paused e; ended := ended e; transform := v |}.

Definition set_clock (v : nat) (t : Tasks) : Tasks :=
  {| clock := v; timers := timers t; animation_requests := animation_requests t;
     inflight := inflight t; acquisitions := acquisitions t;
     flash_requests := flash_requests t; camera_requests := camera_requests t |}.
Definition set_timers (v : list nat) (t : Tasks) : Tasks :=
  {| clock := clock t; timers := v; animation_requests := animation_requests t;
     inflight := inflight t; acquisitions := acquisitions t;
     flash_requests := flash_requests t; camera_requests := camera_requests t |}.
Definition set_animation_requests (v : nat) (t : Tasks) : Tasks :=
  {| clock := clock t; timers := timers t; animation_requests := v;
     inflight := inflight t; acquisitions := acquisitions t;
     flash_requests := flash_requests t; camera_requests := camera_requests t |}.
Definition set_inflight (v : nat) (t : Tasks) : Tasks :=
  {| clock := clock t; timers := timers t; animation_requests := animation_requests t;
     inflight := v; acquisitions := acquisitions t;
     flash_requests := flash_requests t; camera_requests := camera_requests t |}.
Definition set_acquisitions (v : list Acquisition) (t : Tasks) : Tasks :=
  {| clock := clock t; timers := timers t; animation_requests := animation_requests t;
     inflight := inflight t; acquisitions := v;
     flash_requests := flash_requests t; camera_requests := camera_requests t |}.
Definition set_flash_requests (v : list FlashRequest) (t : Tasks) : Tasks :=
  {| clock := clock t; timers := timers t; animation_requests := animation_requests t;
     inflight := inflight t; acquisitions := acquisitions t;
     flash_requests := v; camera_requests := camera_requests t |}.
Definition set_camera_requests (v : nat) (t : Tasks) : Tasks :=
  {| clock := clock t; timers := timers t; animation_requests := animation_requests t;
     inflight := inflight t; acquisitions := acquisitions t;
     flash_requests := flash_requests t; camera_requests := v |}.

Definition on_this (f : Scanner -> Scanner) (w : World) : World :=
  {| this := f (this w); video := video w; document_hidden := document_hidden w;
     attached := attached w; stopped := stopped w; tasks := tasks w; trace := trace w |}.
Definition on_video (f : Video -> Video) (w : World) : World :=
  {| this := this w; video := f (video w); document_hidden := document_hidden w;
     attached := attached w; stopped := stopped w; tasks := tasks w; trace := trace w |}.
Definition on_tasks (f : Tasks -> Tasks) (w : World) : World :=
  {| this := this w; video := video w; document_hidden := document_hidden w;
     attached := attached w; stopped := stopped w; tasks := f (tasks w); trace := trace w |}.
Definition set_document_hidden (v : bool) (w : World) : World :=
  {| this := this w; video := video w; document_hidden := v;
     attached := attached w; stopped := stopped w; tasks := tasks w; trace := trace w |}.
Definition set_attached (v : gmap nat (list Track)) (w : World) : World :=
  {| this := this w; video := video w; document_hidden := document_hidden w;
     attached := v; stopped := stopped w; tasks := tasks w; trace := trace w |}.
Definition set_stopped (v : gset nat) (w : World) : World :=
  {| this := this w; video := video w; document_hidden := document_hidden w;
     attached := attached w; stopped := v; tasks := tasks w; trace := trace w |}.
Definition observe (o : Obs) (w : World) : World :=
  {| this := this w; video := video w; document_hidden := document_hidden w;
     attached := attached w; stopped := stopped w; tasks := tasks w;
     trace := trace w ++ [o] |}.

(** A scanner as the constructor leaves it (lines 41-125), around a video
    element that has no stream yet and is not playing. *)
Definition constructor (preferredCamera : string) (hidden : bool) : World :=
  {| this := {| _active := false; _paused := false; _flashOn := false;
                _preferredCamera := preferredCamera; _qrEnginePromise := 0 |};
     video := {| srcObject := None; paused := true; ended := false; transform := "" |};
     document_hidden := hidden;
     attached := ∅;
     stopped := ∅;
     tasks := {| clock := 0; timers := []; animation_requests := 0; inflight := 0;
                 acquisitions := []; flash_requests := []; camera_requests := 0 |};
     trace := [] |}.

(** ** Streams and tracks *)

(** [stream.getTracks()] and [stream.getVideoTracks()[0]]. *)
Definition getTracks (w : World) (stream : nat) : list Track :=
  default [] (attached w !! stream).

Definition is_video (t : Track) : bool :=
  match track_kind t with VideoTrack => true | AudioTrack => false end.

Definition first_video_track (tracks : list Track) : option Track :=
  List.find is_video tracks.

(** [$video.srcObject ? $video.srcObject.getVideoTracks()[0] : null]. *)
Definition video_track (w : World) : option Track :=
  match srcObject (video w) with
  | Some stream => first_video_track (getTracks w stream)
  | None => None
  end.

(** [track.stop()] and [stream.removeTrack(track)]. *)
Definition stop_track (t : Track) (w : World) : World :=
  set_stopped ({[track_id t]} ∪ stopped w) w.

Definition removeTrack (stream : nat) (t : Track) (w : World) : World :=
  set_attached
    (alter (List.filter (fun u => negb (Nat.eqb (track_id u) (track_id t)))) stream (attached w)) w.

(** [$video.play()] and [$video.pause()]. *)
Definition play (w : World) : World := on_video (set_video_paused false) w.
Definition video_pause (w : World) : World := on_video (set_video_paused true) w.

(** ** Lifecycle: [pause], [stop], [start], [setCamera] (lines 178-277) *)

(** The loop [for (const track of tracks)] of [stopStream], over the tracks
    of [stream]. *)
Fixpoint stop_tracks (stream : nat) (tracks : list Track) (w : World) : World :=
  match tracks with
  | [] => w
  | track :: rest =>
      stop_tracks stream rest (removeTrack stream track (stop_track track w))
  end.

(** The closure [stopStream] of [pause]. *)
Definition stopStream (w : World) : World :=
  let w :=
    match srcObject (video w) with
    | Some stream => stop_tracks stream (getTracks w stream) w
    | None => w
    end in
  on_video (set_srcObject None) w.

Definition PAUSE_DELAY : nat := 300.

(** [pause(stopStreamImmediately)].  The second component is the returned
    promise: [Some b] when it is already resolved with [b], [None] when it
    waits for the timer that the call has set. *)
Definition pause (stopStreamImmediately : bool) (w : World) : World * option bool :=
  let w := on_this (set_paused true) w in
  if negb (_active (this w)) then (w, Some true)
  else
    let w := video_pause w in
    if stopStreamImmediately then (stopStream w, Some true)
    else
      (on_tasks (fun t => set_timers (timers t ++ [clock t + PAUSE_DELAY]) t) w, None).

(** The [.then] callback of [pause], run when its timer fires. *)
Definition pause_elapsed (w : World) : World * bool :=
  if negb (_paused (this w)) then (w, false)
  else (stopStream w, true).

Definition stop (w : World) : World :=
  let w := fst (pause false w) in
  on_this (set_active false) w.

(** ** Torch control: [hasFlash], [_setFlash] (lines 128-166, 474-487) *)

(** [hasFlash()] either settles at once or waits for
    [getPhotoCapabilities()] of the track it found. *)
Inductive FlashProbe : Type :=
| ProbeSettled (r : Result bool)
| ProbePending (track : Track).

Definition hasFlash (P : Platform) (w : World) : FlashProbe :=
  if negb (imageCapture P) then ProbeSettled (Ok false)
  else
    match video_track w with
    | None => ProbeSettled (Err CAMERA_NOT_STARTED)
    | Some track => ProbePending track
    end.

(** The [.then] and [.catch] callbacks of [hasFlash]. *)
Definition hasFlash_settled (P : Platform) (track : Track) : Result bool :=
  match getPhotoCapabilities P track with
  | Some fillLightMode => Ok (existsb (String.eqb "flash") fillLightMode)
  | None => Ok false
  end.

(** Reading [getVideoTracks()[0].applyConstraints] when there is no stream or
    no video track throws. *)
Definition TYPE_ERROR : string := "TypeError".

(** The [.then] callback of [_setFlash]. *)
Definition _setFlash_then (P : Platform) (on hasFlash : bool) (w : World)
    : World * Result unit :=
  if negb hasFlash then (w, Err NO_FLASH_AVAILABLE)
  else
    match video_track w with
    | None => (w, Err TYPE_ERROR)
    | Some track =>
        let w := observe (ApplyTorch (track_id track) on) w in
        match applyConstraints P track on with
        | None => (w, Ok tt)
        | Some e => (w, Err e)
        end
    end.

(** The [.catch] callback of [_setFlash]. *)
Definition _setFlash_catch (on : bool) (r : World * Result unit) : World * Result unit :=
  match r with
  | (w, Ok u) => (w, Ok u)
  | (w, Err e) => (on_this (set_flashOn (negb on)) w, Err e)
  end.

(** Both callbacks, once [hasFlash()] has settled with [probe]. *)
Definition _setFlash_settled (P : Platform) (on : bool) (probe : Result bool)
    (w : World) : World * Result unit :=
  _setFlash_catch on
    match probe with
    | Ok hasFlash => _setFlash_then P on hasFlash w
    | Err e => (w, Err e)
    end.

(** [_setFlash(on)]: the returned promise is settled ([Some]) or waits for
    the capabilities of a track ([None]). *)
Definition _setFlash (P : Platform) (on : bool) (w : World)
    : World * option (Result unit) :=
  let w := on_this (set_flashOn on) w in
  if on && (negb (_active (this w)) || _paused (this w)) then (w, Some (Ok tt))
  else
    match hasFlash P w with
    | ProbeSettled probe =>
        let '(w, r) := _setFlash_settled P on probe w in
        (w, Some r)
    | ProbePending track =>
        (on_tasks (fun t =>
           set_flash_requests
             (flash_requests t ++ [{| flash_on := on; flash_track := track |}]) t) w,
         None)
    end.

Definition isFlashOn (w : World) : bool := _flashOn (this w).
Definition toggleFlash (P : Platform) (w : World) := _setFlash P (negb (_flashOn (this w))) w.
Definition turnFlashOff (P : Platform) (w : World) := _setFlash P false w.
Definition turnFlashOn (P : Platform) (w : World) := _setFlash P true w.

(** ** Starting the camera: [start] and its callbacks (lines 178-229,
    489-504) *)

Definition lower_ascii (c : Ascii.ascii) : Ascii.ascii :=
  let n := Ascii.nat_of_ascii c in
  if (65 <=? n)%nat && (n <=? 90)%nat then Ascii.ascii_of_nat (n + 32) else c.

Fixpoint toLowerCase (s : string) : string :=
  match s with
  | EmptyString => EmptyString
  | String c s' => String (lower_ascii c) (toLowerCase s')
  end.

(** [/a|b|c/i.test(label)]. *)
Definition test_any (words : list string) (label : string) : bool :=
  existsb (fun word => includes word (toLowerCase label)) words.

Definition _getFacingMode (videoStream : MediaStream) : option string :=
  match first_video_track (stream_tracks videoStream) with
  | None => None
  | Some videoTrack =>
      if test_any ["rear"; "back"; "environment"] (track_label videoTrack)
      then Some "environment"
      else if test_any ["front"; "user"; "face"] (track_label videoTrack)
      then Some "user"
      else None
  end.

Definition _setVideoMirror (facingMode : string) (w : World) : World :=
  let scaleFactor := if String.eqb facingMode "user" then "-1" else "1" in
  on_video (set_transform ("scaleX(" ++ scaleFactor ++ ")")) w.

(** [start()] up to the camera request; the request is left pending in
    [acquisitions] together with the closure variable [facingModeGuess]. *)
Definition start (w : World) : World :=
  if _active (this w) && negb (_paused (this w)) then w
  else
    let w := on_this (set_active true) w in
    if document_hidden w then w
    else
      let w := on_this (set_paused false) w in
      match srcObject (video w) with
      | Some _ => play w
      | None =>
          let camera := _preferredCamera (this w) in
          let facingModeGuess := if is_facing_mode camera then Some camera else None in
          on_tasks (fun t =>
            set_acquisitions
              (acquisitions t ++
                 [{| acq_camera := camera; acq_facingModeGuess := facingModeGuess |}]) t) w
      end.

(** The first [.catch] callback of [start] flips the guess. *)
Definition flip_guess (facingModeGuess : option string) : option string :=
  match facingModeGuess with
  | Some g => if String.eqb g "environment" then Some "user" else Some "environment"
  | None => Some "environment"
  end.

(** The [.then] callback of [start]: the stream object enters the world with
    its tracks attached. *)
Definition start_then (P : Platform) (stream : MediaStream)
    (facingModeGuess : option string) (w : World) : World :=
  let facingModeGuess :=
    match _getFacingMode stream with
    | Some mode => mode
    | None =>
        match facingModeGuess with
        | Some g => g
        | None => "environment"
        end
    end in
  let w := set_attached (<[stream_id stream := stream_tracks stream]> (attached w)) w in
  let w := on_video (set_srcObject (Some (stream_id stream))) w in
  let w := play w in
  let w := _setVideoMirror facingModeGuess w in
  if _flashOn (this w) then fst (turnFlashOn P w) else w.

(** The last [.catch] callback of [start]; the promise of [start] rejects. *)
Definition start_catch (e : string) (w : World) : World :=
  observe (StartRejected e) (on_this (set_active false) w).

(** The camera requests of a pending [start()] and the callbacks that follow
    them.  The requests read nothing of the scanner, so they are answered in
    one step. *)
Definition start_settled (P : Platform) (a : Acquisition) (w : World) : World :=
  let n := camera_requests (tasks w) in
  let '(sent1, r1) := _getCameraStream P (Some (acq_camera a)) true n in
  let '(sent, facingModeGuess, r) :=
    match r1 with
    | Ok stream => (sent1, acq_facingModeGuess a, Ok stream)
    | Err _ =>
        let '(sent2, r2) := _getCameraStream P None false (n + length sent1) in
        ((sent1 ++ sent2)%list, flip_guess (acq_facingModeGuess a), r2)
    end in
  let w := on_tasks (set_camera_requests (n + length sent)) w in
  let w := foldl (fun w c => observe (GetUserMedia c) w) w sent in
  match r with
  | Ok stream => start_then P stream facingModeGuess w
  | Err e => start_catch e w
  end.

(** The [.then] callback of [setCamera]. *)
Definition setCamera_then (paused wasPaused : bool) (w : World) : World :=
  if negb paused || wasPaused || negb (_active (this w)) then w
  else start w.

(** [setCamera(facingModeOrDeviceId)] with the callback that follows
    [pause(true)]; that promise is always resolved already (lemma
    [pause_immediately_resolved]). *)
Definition setCamera (facingModeOrDeviceId : string) (w : World) : World :=
  if String.eqb facingModeOrDeviceId (_preferredCamera (this w)) then w
  else
    let w := on_this (set_preferredCamera facingModeOrDeviceId) w in
    let wasPaused := _paused (this w) in
    match pause true w with
    | (w, Some paused) => setCamera_then paused wasPaused w
    | (w, None) => w
    end.

(** ** The scan loop: [_scanFrame] and its callbacks (lines 380-442) *)

(** [_scanFrame()] hands one callback to [requestAnimationFrame]. *)
Definition _scanFrame (w : World) : World :=
  if negb (_active (this w)) || paused (video w) || ended (video w) then w
  else on_tasks (fun t => set_animation_requests (S (animation_requests t)) t) w.

(** The animation-frame callback: it skips the frame or starts a decode
    round-trip, which is left pending in [inflight]. *)
Definition _scanFrame_frame (readyState : nat) (w : World) : World :=
  if (readyState <=? 1)%nat then _scanFrame w
  else on_tasks (fun t => set_inflight (S (inflight t)) t) w.

(** The two callbacks of [.then(this._onDecode, (error) => ...)] and the
    [.then(() => this._scanFrame())] after them.  The configured handlers are
    observed, not run. *)
Definition _scanFrame_settled (r : Result string) (w : World) : World :=
  let w :=
    match r with
    | Ok payload => observe (OnDecode payload) w
    | Err error =>
        if negb (_active (this w)) then w
        else
          let w :=
            if includes "service unavailable" error
            then on_this (fun s => set_qrEnginePromise (S (_qrEnginePromise s)) s) w
            else w in
          observe (OnDecodeError error) w
    end in
  _scanFrame w.

(** The default decode-error handler: what it writes to the console. *)
Definition _onDecodeError (error : string) : option string :=
  if String.eqb error NO_QR_CODE_FOUND then None else Some error.

Definition _onPlay (w : World) : World := _scanFrame w.

Definition _onVisibilityChange (w : World) : World :=
  if document_hidden w then fst (pause false w)
  else if _active (this w) then start w
  else w.

(** ** The event loop *)

(** What can happen to a scanner: a method call by its owner, or a task of
    the browser. *)
Inductive Event : Type :=
| Call_start
| Call_stop
| Call_pause (stopStreamImmediately : bool)
| Call_setCamera (camera : string)
| Call_toggleFlash
| Call_turnFlashOn
| Call_turnFlashOff
| VisibilityChange (hidden : bool)
| PlayEvent
| AnimationFrame (readyState : nat)
| ScanSettled (r : Result string)
| CameraSettled
| FlashProbeSettled
| Elapse (ms : nat).

(** The timers in [due] fire, oldest first: each runs the callback of the
    [pause] that set it. *)
Fixpoint fire_timers (due : list nat) (w : World) : World :=
  match due with
  | [] => w
  | _ :: rest => fire_timers rest (fst (pause_elapsed w))
  end.

(** The clock moves on by [ms]; the timers that are due by then leave the
    queue. *)
Definition advance (ms : nat) (w : World) : World :=
  let now := clock (tasks w) + ms in
  let rest := List.filter (fun t => negb (t <=? now)%nat) (timers (tasks w)) in
  on_tasks (fun t => set_timers rest (set_clock now t)) w.

(** Time passes: the timers that are due fire. *)
Definition elapse (ms : nat) (w : World) : World :=
  let now := clock (tasks w) + ms in
  let due := List.filter (fun t => (t <=? now)%nat) (timers (tasks w)) in
  fire_timers due (advance ms w).

(** An animation frame runs the callbacks requested before it; a hidden page
    gets no animation frames. *)
Definition animation_frame (readyState : nat) (w : World) : World :=
  if document_hidden w then w
  else
    let n := animation_requests (tasks w) in
    let w := on_tasks (set_animation_requests 0) w in
    Nat.iter n (_scanFrame_frame readyState) w.

Definition flash_call (r : World * option (Result unit)) : World :=
  match r with
  | (w, Some r) => observe (FlashSettled r) w
  | (w, None) => w
  end.

Definition step (P : Platform) (e : Event) (w : World) : World :=
  match e with
  | Call_start => start w
  | Call_stop => stop w
  | Call_pause stopStreamImmediately => fst (pause stopStreamImmediately w)
  | Call_setCamera camera => setCamera camera w
  | Call_toggleFlash => flash_call (toggleFlash P w)
  | Call_turnFlashOn => flash_call (turnFlashOn P w)
  | Call_turnFlashOff => flash_call (turnFlashOff P w)
  | VisibilityChange hidden => _onVisibilityChange (set_document_hidden hidden w)
  | PlayEvent => _onPlay w
  | AnimationFrame readyState => animation_frame readyState w
  | ScanSettled r =>
      match inflight (tasks w) with
      | O => w
      | S n => _scanFrame_settled r (on_tasks (set_inflight n) w)
      end
  | CameraSettled =>
      match acquisitions (tasks w) with
      | [] => w
      | a :: rest => start_settled P a (on_tasks (set_acquisitions rest) w)
      end
  | FlashProbeSettled =>
      match flash_requests (tasks w) with
      | [] => w
      | f :: rest =>
          let w := on_tasks (set_flash_requests rest) w in
          let '(w, r) :=
            _setFlash_settled P (flash_on f) (hasFlash_settled P (flash_track f)) w in
          observe (FlashSettled r) w
      end
  | Elapse ms => elapse ms w
  end.

Definition run (P : Platform) (events : list Event) (w : World) : World :=
  foldl (fun w e => step P e w) w events.

(** ** Vocabulary of the properties *)

(** The stream that the video showed in [before] is torn down in [after]:
    the video has no stream, the stream object has no track attached, and
    every track it had is stopped. *)
Definition torn_down (before after : World) : Prop :=
  srcObject (video after) = None /\
  forall stream, srcObject (video before) = Some stream ->
    getTracks after stream = [] /\
    forall t, t ∈ getTracks before stream -> track_id t ∈ stopped after.

(** Nothing happened to streams and tracks between [before] and [after]. *)
Definition stream_intact (before after : World) : Prop :=
  srcObject (video after) = srcObject (video before) /\
  attached after = attached before /\
  stopped after = stopped before.

(** The state of a scanner whose first deferred pause was at time [t0], as
    long as only deferred pauses and time follow: the stream of [w0] is
    untouched until [t0 + 300] and torn down from then on. *)
Definition debounced (t0 : nat) (w0 w : World) : Prop :=
  _active (this w) = true /\
  _paused (this w) = true /\
  t0 <= clock (tasks w) /\
  Forall (fun d => t0 + PAUSE_DELAY <= d) (timers (tasks w)) /\
  ((clock (tasks w) < t0 + PAUSE_DELAY /\ stream_intact w0 w /\
    In (t0 + PAUSE_DELAY) (timers (tasks w)))
   \/ (t0 + PAUSE_DELAY <= clock (tasks w) /\ torn_down w0 w)).

(** A deferred pause, or time passing. *)
Definition pause_or_wait (e : Event) : Prop :=
  match e with
  | Call_pause false => True
  | Elapse _ => True
  | _ => False
  end.

(** A track whose id is none of those in [l]. *)
Definition differs_from_all (l : list Track) (u : Track) : bool :=
  forallb (fun t => negb (Nat.eqb (track_id u) (track_id t))) l.

(** A message other than the shutdown message. *)
Definition not_close (p : nat * WorkerMessage) : Prop := p.2 <> Close.

(** No engine exists yet. *)
Definition no_engines : Engines := {| created := []; posted := []; submitted := [] |}.

(** A world for the examples: one camera whose label names the back of the
    device, torch supported, no native detector. *)
Definition back_track : Track :=
  {| track_id := 1; track_kind := VideoTrack; track_label := "Back Camera" |}.

Definition back_camera : MediaStream :=
  {| stream_id := 7; stream_tracks := [back_track] |}.

Definition phone : Platform :=
  {| mediaDevices := Some (fun _ _ => Some back_camera);
     imageCapture := true;
     getPhotoCapabilities := fun _ => Some ["flash"; "off"];
     applyConstraints := fun _ _ => None;
     barcodeDetector := None;
     decode := fun _ _ _ => NothingFound |}.

(** The same device with a decoder that finds nothing in its first request
    and the payload "ABC123" in every later one. *)
Definition phone_second_try : Platform :=
  {| mediaDevices := mediaDevices phone;
     imageCapture := imageCapture phone;
     getPhotoCapabilities := getPhotoCapabilities phone;
     applyConstraints := applyConstraints phone;
     barcodeDetector := barcodeDetector phone;
     decode := fun n _ _ => match n with O => NothingFound | S _ => Found "ABC123" end |}.

(** The scanner of the examples after [start()] has got its camera. *)
Definition scanning : World :=
  run phone [Call_start; CameraSettled] (constructor "environment" false).

(** A 640 x 480 video frame and a region inside it. *)
Definition vga : Image :=
  {| img_id := 0; img_width := 0; img_height := 0; videoWidth := 640; videoHeight := 480 |}.

Definition corner_region : ScanRegion :=
  {| region_x := 0; region_y := 0; region_width := 100; region_height := 100;
     downScaledWidth := 50; downScaledHeight := 50 |}.

(** The whole frame as the specification means it: a source rectangle that
    starts at the origin and has the dimensions of the frame the video
    shows, which are the units [drawImage] measures a video in. *)
Definition covers_native_frame (b : Bitmap) : bool :=
  (bm_sx b =? 0)%Z && (bm_sy b =? 0)%Z
  && (bm_sw b =? videoWidth (bm_image b))%Z
  && (bm_sh b =? videoHeight (bm_image b))%Z.

(** A video element laid out at 320 x 240 by its [width] and [height]
    attributes that shows a 1280 x 720 stream. *)
Definition sized_video : Image :=
  {| img_id := 1; img_width := 320; img_height := 240;
     videoWidth := 1280; videoHeight := 720 |}.

(** The device of the examples with a decoder that finds the payload
    "ABC123" in a bitmap of the whole frame and in no other. *)
Definition frame_reader : Platform :=
  {| mediaDevices := mediaDevices phone;
     imageCapture := imageCapture phone;
     getPhotoCapabilities := getPhotoCapabilities phone;
     applyConstraints := applyConstraints phone;
     barcodeDetector := barcodeDetector phone;
     decode := fun _ _ bitmap =>
       match bitmap with
       | Some b => if covers_native_frame b then Found "ABC123" else NothingFound
       | None => NothingFound
       end |}.

(** A scanner in the middle of a decode round-trip: started, playing, one
    animation frame gone by on a ready video. *)
Definition decoding : World :=
  run phone [PlayEvent; AnimationFrame 4] scanning.

(** The request that [start()] leaves pending for a preference. *)
Definition acquisition_for (camera : string) : Acquisition :=
  {| acq_camera := camera;
     acq_facingModeGuess := if is_facing_mode camera then Some camera else None |}.

(** [_setFlash(on)] returns at once with the flag recorded: the torch is
    asked for while the scanner is inactive or paused. *)
Definition flash_deferred (on : bool) (w : World) : bool :=
  on && (negb (_active (this w)) || _paused (this w)).

(** The track's photo capabilities name the flash. *)
Definition torch_capable (P : Platform) (track : Track) : bool :=
  match getPhotoCapabilities P track with
  | Some fillLightMode => existsb (String.eqb "flash") fillLightMode
  | None => false
  end.

Definition push_flash_request (on : bool) (track : Track) (w : World) : World :=
  on_tasks (fun t =>
    set_flash_requests (flash_requests t ++ [{| flash_on := on; flash_track := track |}]) t) w.

(** ** Listing cameras: [hasCamera], [listCameras] (lines 3-39) *)

(** An entry of [enumerateDevices()]. *)
Record MediaDeviceInfo : Type := {
  info_deviceId : string;
  info_kind : string;
  info_label : string
}.

(** An entry of the list that [listCameras] resolves with. *)
Record Camera : Type := {
  camera_id : string;
  camera_label : string
}.

(** [navigator.mediaDevices] as [listCameras] uses it:
    [getUserMedia({ audio: false, video: true })], [None] when it rejects,
    and [enumerateDevices()], whose answer may depend on the stream that the
    call has opened. *)
Record MediaDevices : Type := {
  getUserMedia : option MediaStream;
  enumerateDevices : option MediaStream -> Result (list MediaDeviceInfo)
}.

(** [device.label || (i === 0 ? 'Default Camera' : `Camera ${i + 1}`)]. *)
Definition label_or_default (i : nat) (device : MediaDeviceInfo) : string :=
  if truthy_str (info_label device) then info_label device
  else if Nat.eqb i 0 then "Default Camera"
  else "Camera " ++ pretty (i + 1)%nat.

Definition is_videoinput (device : MediaDeviceInfo) : bool :=
  String.eqb (info_kind device) "videoinput".

(** The [.then] callback on the list of devices. *)
Definition cameras_of (devices : list MediaDeviceInfo) : list Camera :=
  imap (fun i device =>
          {| camera_id := info_deviceId device;
             camera_label := label_or_default i device |})
    (List.filter is_videoinput devices).

(** The closure variable [openedStream] once the first promise has settled. *)
Definition openedStream (mediaDevices : MediaDevices) (requestLabels : bool)
    : option MediaStream :=
  if requestLabels then getUserMedia mediaDevices else None.

(** [listCameras(requestLabels)] for a value of [navigator.mediaDevices].
    An opened stream enters the world with its tracks attached; the
    [.finally] callback runs however [enumerateDevices()] settles. *)
Definition listCameras (mediaDevices : option MediaDevices) (requestLabels : bool)
    (w : World) : World * Result (list Camera) :=
  match mediaDevices with
  | None => (w, Ok [])
  | Some mediaDevices =>
      let openedStream := openedStream mediaDevices requestLabels in
      let w :=
        match openedStream with
        | Some stream =>
            set_attached (<[stream_id stream := stream_tracks stream]> (attached w)) w
        | None => w
        end in
      let cameras :=
        match enumerateDevices mediaDevices openedStream with
        | Ok devices => Ok (cameras_of devices)
        | Err e => Err e
        end in
      let w :=
        match openedStream with
        | Some stream =>
            stop_tracks (stream_id stream) (getTracks w (stream_id stream)) w
        | None => w
        end in
      (w, cameras)
  end.

(** [hasCamera()]. *)
Definition hasCamera (mediaDevices : option MediaDevices) (w : World) : World * bool :=
  match listCameras mediaDevices false w with
  | (w, Ok cameras) => (w, negb (Nat.eqb (length cameras) 0))
  | (w, Err _) => (w, false)
  end.

(** A laptop for the examples: a microphone and two cameras, whose labels
    the browser tells only while a stream is open. *)
Definition webcam : MediaStream :=
  {| stream_id := 9;
     stream_tracks := [{| track_id := 4; track_kind := VideoTrack;
                          track_label := "Integrated Webcam" |}] |}.

Definition laptop : MediaDevices :=
  {| getUserMedia := Some webcam;
     enumerateDevices := fun opened =>
       let label := fun name => match opened with Some _ => name | None => "" end in
       Ok [ {| info_deviceId := "mic"; info_kind := "audioinput";
               info_label := label "Microphone" |};
            {| info_deviceId := "cam-a"; info_kind := "videoinput";
               info_label := label "Integrated Webcam" |};
            {| info_deviceId := "cam-b"; info_kind := "videoinput";
               info_label := label "USB Camera" |} ] |}.

(** ** The decode round-trip in detail (lines 296-339)

    [request_decode] above sums a round-trip up by [settle].  Here the
    promise of each engine kind is written out with its listeners, its timer
    and the events that reach it. *)

(** A value that an error handler is called with: [null] or [undefined], a
    string, or an object with its [message] property ([""] when it has none)
    and the string it converts to. *)
Inductive ErrorValue : Type :=
| Nullish
| Text (s : string)
| ErrorObject (message text : string).

(** The promise of a round-trip: [resolve] and [reject] settle it once. *)
Definition resolve (payload : string) (promise : option (Result string))
    : option (Result string) :=
  match promise with Some r => Some r | None => Some (Ok payload) end.

Definition reject (error : string) (promise : option (Result string))
    : option (Result string) :=
  match promise with Some r => Some r | None => Some (Err error) end.

(** *** With a worker (lines 297-327) *)

(** The listeners on the worker, the 10 s timer and the promise. *)
Record WorkerTrip : Type := {
  message_listener : bool;
  error_listener : bool;
  worker_timeout : bool;
  worker_promise : option (Result string)
}.

(** The executor has run: both listeners added, the timer set. *)
Definition worker_waiting : WorkerTrip :=
  {| message_listener := true; error_listener := true; worker_timeout := true;
     worker_promise := None |}.

(** [removeEventListener] twice and [clearTimeout]. *)
Definition worker_release (promise : option (Result string)) : WorkerTrip :=
  {| message_listener := false; error_listener := false; worker_timeout := false;
     worker_promise := promise |}.

(** [event.data] of a message: its [type] and its [data] ([None] is
    [null]). *)
Definition onMessage (type : string) (data : option string) (t : WorkerTrip)
    : WorkerTrip :=
  if negb (String.eqb type "qrResult") then t
  else
    match data with
    | Some payload => worker_release (resolve payload (worker_promise t))
    | None => worker_release (reject NO_QR_CODE_FOUND (worker_promise t))
    end.

(** [!e ? 'Unknown Error' : (e.message || e)], as the string it is
    appended as. *)
Definition errorMessage (e : ErrorValue) : string :=
  match e with
  | Nullish => "Unknown Error"
  | Text s => if truthy_str s then s else "Unknown Error"
  | ErrorObject message text => if truthy_str message then message else text
  end.

Definition onError (e : ErrorValue) (t : WorkerTrip) : WorkerTrip :=
  worker_release (reject ("Scanner error: " ++ errorMessage e) (worker_promise t)).

(** What reaches the round-trip: a message or an error event of the worker,
    or the timer. *)
Inductive WorkerEvent : Type :=
| MessageEvent (type : string) (data : option string)
| ErrorEvent (e : ErrorValue)
| WorkerTimeout.

(** An event runs the listener that is registered for it. *)
Definition worker_deliver (t : WorkerTrip) (ev : WorkerEvent) : WorkerTrip :=
  match ev with
  | MessageEvent type data => if message_listener t then onMessage type data t else t
  | ErrorEvent e => if error_listener t then onError e t else t
  | WorkerTimeout => if worker_timeout t then onError (Text "timeout") t else t
  end.

(** What an event means for the requester, if anything. *)
Definition worker_outcome (ev : WorkerEvent) : option DecodeOutcome :=
  match ev with
  | MessageEvent type data =>
      if String.eqb type "qrResult" then
        Some match data with Some payload => Found payload | None => NothingFound end
      else None
  | ErrorEvent e => Some (Fault (errorMessage e))
  | WorkerTimeout => Some Silent
  end.

Fixpoint first_outcome {E : Type} (outcome : E -> option DecodeOutcome)
    (events : list E) : option DecodeOutcome :=
  match events with
  | [] => None
  | ev :: rest =>
      match outcome ev with
      | Some o => Some o
      | None => first_outcome outcome rest
      end
  end.

(** *** With a native detector (lines 329-338) *)

(** The promise of [detect()] with the callbacks chained to it, the 10 s
    timer and the promise of the round-trip. *)
Record DetectorTrip : Type := {
  detect_pending : bool;
  detector_timeout : bool;
  detector_promise : option (Result string)
}.

Definition detector_waiting : DetectorTrip :=
  {| detect_pending := true; detector_timeout := true; detector_promise := None |}.

(** The [.then] callback of [detect()], on the raw values of the results. *)
Definition detect_then (rawValues : list string) (promise : option (Result string))
    : option (Result string) :=
  match rawValues with
  | [] => reject NO_QR_CODE_FOUND promise
  | rawValue :: _ => resolve rawValue promise
  end.

(** The [.catch] callback: [e.message || e] throws on [null] and
    [undefined], and then nothing is rejected. *)
Definition detect_catch (e : ErrorValue) (promise : option (Result string))
    : option (Result string) :=
  match e with
  | Nullish => promise
  | Text s => reject ("Scanner error: " ++ s) promise
  | ErrorObject message text =>
      reject ("Scanner error: " ++ if truthy_str message then message else text) promise
  end.

Inductive DetectorEvent : Type :=
| DetectResolved (rawValues : list string)
| DetectRejected (e : ErrorValue)
| DetectorTimeout.

(** [detect()] settles once, and its [.finally] callback clears the timer;
    the timer fires only while it is set. *)
Definition detector_deliver (t : DetectorTrip) (ev : DetectorEvent) : DetectorTrip :=
  match ev with
  | DetectResolved rawValues =>
      if detect_pending t then
        {| detect_pending := false; detector_timeout := false;
           detector_promise := detect_then rawValues (detector_promise t) |}
      else t
  | DetectRejected e =>
      if detect_pending t then
        {| detect_pending := false; detector_timeout := false;
           detector_promise := detect_catch e (detector_promise t) |}
      else t
  | DetectorTimeout =>
      if detector_timeout t then
        {| detect_pending := detect_pending t; detector_timeout := false;
           detector_promise := reject "Scanner error: timeout" (detector_promise t) |}
      else t
  end.

Definition detector_outcome (ev : DetectorEvent) : option DecodeOutcome :=
  match ev with
  | DetectResolved [] => Some NothingFound
  | DetectResolved (rawValue :: _) => Some (Found rawValue)
  | DetectRejected Nullish => None
  | DetectRejected (Text s) => Some (Fault s)
  | DetectRejected (ErrorObject message text) =>
      Some (Fault (if truthy_str message then message else text))
  | DetectorTimeout => Some Silent
  end.

(** ** Loading an image in detail (lines 541-589)

    [_loadImage] above sums the load of an image element up by a flag.  Here
    the promise of [_awaitImageLoad] is written out with its listeners, and
    [_loadImage] with the object URL it creates for a [File] or [Blob]. *)

(** The listeners on the image element and the promise of
    [_awaitImageLoad]. *)
Record Loading : Type := {
  load_listener : bool;
  image_error_listener : bool;
  load_promise : option (Result unit)
}.

(** [_awaitImageLoad(image)] on an element with the given [complete] and
    [naturalWidth]: resolved at once, or listening. *)
Definition awaitImageLoad (complete : bool) (naturalWidth : Z) : Loading :=
  if complete && negb (naturalWidth =? 0)%Z then
    {| load_listener := false; image_error_listener := false;
       load_promise := Some (Ok tt) |}
  else
    {| load_listener := true; image_error_listener := true; load_promise := None |}.

(** The closures [onLoad] and [onError] of [_awaitImageLoad]. *)
Definition onLoad (l : Loading) : Loading :=
  {| load_listener := false; image_error_listener := false;
     load_promise := match load_promise l with Some r => Some r | None => Some (Ok tt) end |}.

Definition image_onError (l : Loading) : Loading :=
  {| load_listener := false; image_error_listener := false;
     load_promise :=
       match load_promise l with Some r => Some r | None => Some (Err IMAGE_LOAD_ERROR) end |}.

Inductive ImageEvent : Type := LoadFired | ErrorFired.

Definition image_deliver (l : Loading) (ev : ImageEvent) : Loading :=
  match ev with
  | LoadFired => if load_listener l then onLoad l else l
  | ErrorFired => if image_error_listener l then image_onError l else l
  end.

(** The last branch of [_loadImage] that loads: its argument is a [File] or
    [Blob], for which an object URL is created, or a [URL] or string. *)
Inductive Origin : Type := FileOrBlob | UrlOrString.

(** [_loadImage] at work on such an argument: the load of the [Image] it
    created, the object URLs that are registered, and the promise that it
    returned. *)
Record ImageLoad : Type := {
  loading : Loading;
  object_urls : gset nat;
  image_promise : option (Result Image)
}.

(** The [.then] callback of [_loadImage], run once when the promise of
    [_awaitImageLoad] has resolved; a rejection passes it by. *)
Definition loadImage_then (origin : Origin) (url : nat) (image : Image) (s : ImageLoad)
    : ImageLoad :=
  match image_promise s, load_promise (loading s) with
  | None, Some (Ok _) =>
      {| loading := loading s;
         object_urls :=
           match origin with
           | FileOrBlob => object_urls s ∖ {[url]}
           | UrlOrString => object_urls s
           end;
         image_promise := Some (Ok image) |}
  | None, Some (Err e) =>
      {| loading := loading s; object_urls := object_urls s;
         image_promise := Some (Err e) |}
  | _, _ => s
  end.

(** The call itself: [URL.createObjectURL] hands out [url] for a [File] or
    [Blob], and the element is [complete] with [naturalWidth] when
    [_awaitImageLoad] looks at it. *)
Definition loadImage_call (origin : Origin) (url : nat) (image : Image)
    (complete : bool) (naturalWidth : Z) (urls : gset nat) : ImageLoad :=
  loadImage_then origin url image
    {| loading := awaitImageLoad complete naturalWidth;
       object_urls :=
         match origin with
         | FileOrBlob => {[url]} ∪ urls
         | UrlOrString => urls
         end;
       image_promise := None |}.

(** An event of the element, and the callback that follows if the promise
    of [_awaitImageLoad] has settled. *)
Definition loadImage_deliver (origin : Origin) (url : nat) (image : Image)
    (s : ImageLoad) (ev : ImageEvent) : ImageLoad :=
  loadImage_then origin url image
    {| loading := image_deliver (loading s) ev;
       object_urls := object_urls s;
       image_promise := image_promise s |}.

(** ** Vocabulary of the further properties *)

(** The events of the scan loop: the video's play event, an animation frame,
    a decode round-trip coming back. *)
Definition loop_event (e : Event) : Prop :=
  match e with
  | PlayEvent => True
  | AnimationFrame _ => True
  | ScanSettled _ => True
  | _ => False
  end.

(** The scan cycles under way: animation frames requested and decode
    round-trips in flight. *)
Definition cycles (w : World) : nat :=
  animation_requests (tasks w) + inflight (tasks w).

Definition is_play (e : Event) : bool :=
  match e with PlayEvent => true | _ => false end.

(** What the loop reports for a round-trip on an active scanner. *)
Definition report (r : Result string) : Obs :=
  match r with
  | Ok payload => OnDecode payload
  | Err error => OnDecodeError error
  end.

Definition is_unavailable (r : Result string) : bool :=
  match r with
  | Ok _ => false
  | Err error => includes "service unavailable" error
  end.

(** One turn of the loop: the round-trip in flight comes back with [r], then
    an animation frame passes on a video that has data. *)
Definition turn (r : Result string) : list Event := [ScanSettled r; AnimationFrame 4].

(** Events that do not start the camera: stopping, pausing, time, the page
    changing visibility, another camera preference. *)
Definition idle_event (e : Event) : Prop :=
  match e with
  | Call_stop => True
  | Call_pause _ => True
  | Call_setCamera _ => True
  | VisibilityChange _ => True
  | Elapse _ => True
  | _ => False
  end.

(** The device of the examples when the user refuses the camera: every
    request is rejected. *)
Definition refused : Platform :=
  {| mediaDevices := Some (fun _ _ => None);
     imageCapture := imageCapture phone;
     getPhotoCapabilities := getPhotoCapabilities phone;
     applyConstraints := applyConstraints phone;
     barcodeDetector := barcodeDetector phone;
     decode := decode phone |}.

(** The facing mode [start()] settles on for a stream. *)
Definition settled_facing_mode (stream : MediaStream) (facingModeGuess : option string)
    : string :=
  match _getFacingMode stream with
  | Some mode => mode
  | None => default "environment" facingModeGuess
  end.

(** The scanner of the examples stopped while its camera request was
    pending; the camera arrives after the timer of the stop has fired. *)
Definition late_camera : World :=
  run phone [Call_start; Call_stop; Elapse 300; CameraSettled]
    (constructor "environment" false).

(** The canvas size [_drawToCanvas] asks for when it may resize, and the
    sizes a canvas can hold. *)
Definition requested_width (image : Image) (scanRegion : option ScanRegion) : Z :=
  region_or scanRegion downScaledWidth
    (region_or scanRegion region_width (js_or (img_width image) (videoWidth image))).
Definition requested_height (image : Image) (scanRegion : option ScanRegion) : Z :=
  region_or scanRegion downScaledHeight
    (region_or scanRegion region_height (js_or (img_height image) (videoHeight image))).

Definition holdable (v : Z) : Prop := (0 <= v <= MAX_CANVAS_DIMENSION)%Z.

(** A device that opens a new stream, with a track of its own, for every
    camera request. *)
Definition fresh_stream (n : nat) : MediaStream :=
  {| stream_id := 10 + n;
     stream_tracks := [{| track_id := 20 + n; track_kind := VideoTrack;
                          track_label := "Back Camera" |}] |}.

Definition generous : Platform :=
  {| mediaDevices := Some (fun n _ => Some (fresh_stream n));
     imageCapture := imageCapture phone;
     getPhotoCapabilities := getPhotoCapabilities phone;
     applyConstraints := applyConstraints phone;
     barcodeDetector := barcodeDetector phone;
     decode := decode phone |}.

(** The world after the camera request of a pending [start()] was granted
    at once with [stream], on a scanner whose torch flag is off. *)
Definition granted (c : Constraints) (stream : MediaStream)
    (facingModeGuess : option string) (w : World) : World :=
  _setVideoMirror (settled_facing_mode stream facingModeGuess)
    (play
       (on_video (set_srcObject (Some (stream_id stream)))
          (set_attached (<[stream_id stream := stream_tracks stream]> (attached w))
             (observe (GetUserMedia c)
                (on_tasks (set_camera_requests (camera_requests (tasks w) + 1)) w))))).

(** A device with one camera, whose label tells nothing and which is granted
    only to requests that name no facing mode. *)
Definition plain_camera : MediaStream :=
  {| stream_id := 3;
     stream_tracks := [{| track_id := 5; track_kind := VideoTrack;
                          track_label := "HD WebCam" |}] |}.

Definition front_only : Platform :=
  {| mediaDevices :=
       Some (fun _ c => match facingMode c with Some _ => None | None => Some plain_camera end);
     imageCapture := imageCapture phone;
     getPhotoCapabilities := getPhotoCapabilities phone;
     applyConstraints := applyConstraints phone;
     barcodeDetector := barcodeDetector phone;
     decode := decode phone |}.

(** * Properties *)

Open Scope list_scope.
Open Scope nat_scope.

Arguments _drawToCanvas : simpl never.
Arguments request_decode : simpl never.

(** ** Canvas sampler *)

Lemma reflect_dimension_id default v :
  (0 <= v <= MAX_CANVAS_DIMENSION)%Z -> reflect_dimension default v = v.
Proof.
  unfold reflect_dimension, MAX_CANVAS_DIMENSION. intros Hv.
  rewrite Z.mod_small by lia.
  destruct (Z.leb_spec v 2147483647); [done | lia].
Qed.

Lemma truthy_pos v : (0 < v)%Z -> truthy v = true.
Proof. unfold truthy. intros Hv. destruct (Z.eqb_spec v 0); [lia | done]. Qed.

Lemma region_or_pos r f fallback :
  (0 < f r)%Z -> region_or (Some r) f fallback = f r.
Proof. intros Hv. unfold region_or. by rewrite truthy_pos. Qed.

(** C6, as the claim states it, fails when resizing is disallowed: a default
    300 x 150 canvas keeps its size, it does not take the region's 100 x 100
    (nor the 50 x 50 down-scale target). *)
Lemma drawToCanvas_disallowed_keeps_size :
  region_within corner_region vga /\
  let after := _drawToCanvas vga (Some corner_region) (Some createCanvas) true in
  (canvas_width after, canvas_height after) = (300, 150)%Z /\
  (canvas_width after, canvas_height after)
    <> (region_width corner_region, region_height corner_region).
Proof.
  split; [| split].
  - unfold region_within; vm_compute; repeat split; congruence.
  - reflexivity.
  - vm_compute. congruence.
Qed.

(** C6 (amended).  For a scan region inside the frame: when resizing is
    allowed the buffer ends with the dimensions the region asks for, which are
    its down-scale target when one is configured (and its own extent where
    none is), and [width] / [height] are assigned only where they differ from
    that; when resizing is disallowed the buffer keeps the dimensions it had
    and nothing is assigned.  In both cases the region is what is drawn, over
    the whole buffer. *)
Theorem drawToCanvas_dimensions image r canvas disallowCanvasResizing :
  region_within r image ->
  downscale_fits r ->
  let before := match canvas with Some c => c | None => createCanvas end in
  let after := _drawToCanvas image (Some r) canvas disallowCanvasResizing in
  (disallowCanvasResizing = false ->
     canvas_width after = required_width r /\
     canvas_height after = required_height r /\
     resets after =
       resets before
       + (if (canvas_width before =? required_width r)%Z then 0 else 1)
       + (if (canvas_height before =? required_height r)%Z then 0 else 1)) /\
  (downscale_configured r ->
     required_width r = downScaledWidth r /\ required_height r = downScaledHeight r) /\
  (disallowCanvasResizing = true ->
     canvas_width after = canvas_width before /\
     canvas_height after = canvas_height before /\
     resets after = resets before) /\
  pixels after =
    Some {| bm_image := image;
            bm_sx := region_x r; bm_sy := region_y r;
            bm_sw := region_width r; bm_sh := region_height r;
            bm_dw := canvas_width after; bm_dh := canvas_height after |}.
Proof.
  intros (Hx & Hy & Hw & Hh & Hxw & Hyh & Hfw & Hfh) [Hdw Hdh] before after.
  assert (Hrx : region_or (Some r) region_x 0 = region_x r).
  { unfold region_or, truthy. destruct (Z.eqb_spec (region_x r) 0); simpl; congruence. }
  assert (Hry : region_or (Some r) region_y 0 = region_y r).
  { unfold region_or, truthy. destruct (Z.eqb_spec (region_y r) 0); simpl; congruence. }
  assert (Htw : (0 <= required_width r <= MAX_CANVAS_DIMENSION)%Z).
  { unfold required_width. destruct (truthy (downScaledWidth r)); lia. }
  assert (Hth : (0 <= required_height r <= MAX_CANVAS_DIMENSION)%Z).
  { unfold required_height. destruct (truthy (downScaledHeight r)); lia. }
  subst after. unfold _drawToCanvas. fold before.
  rewrite Hrx, Hry, !(region_or_pos r region_width), !(region_or_pos r region_height) by done.
  change (region_or (Some r) downScaledWidth (region_width r)) with (required_width r).
  change (region_or (Some r) downScaledHeight (region_height r)) with (required_height r).
  split; [| split; [| split]].
  - intros ->.
    destruct (Z.eqb_spec (canvas_width before) (required_width r)) as [Ew | Ew]; simpl;
      destruct (Z.eqb_spec (canvas_height before) (required_height r)) as [Eh | Eh]; simpl;
      rewrite ?reflect_dimension_id by done;
      repeat split; try done; lia.
  - intros [Hcw Hch]. unfold required_width, required_height.
    by rewrite !truthy_pos.
  - by intros ->.
  - destruct disallowCanvasResizing; [done |].
    destruct (Z.eqb_spec (canvas_width before) (required_width r)) as [Ew | Ew]; simpl;
      destruct (Z.eqb_spec (canvas_height before) (required_height r)) as [Eh | Eh]; done.
Qed.

Lemma drawToCanvas_dimensions_witness :
  canvas_width (_drawToCanvas vga (Some corner_region) None false) = 50%Z.
Proof.
  destruct (drawToCanvas_dimensions vga corner_region None false) as (Hallowed & _).
  - unfold region_within; vm_compute; repeat split; congruence.
  - unfold downscale_fits; vm_compute; repeat split; congruence.
  - apply Hallowed. reflexivity.
Defined.

(** ** Camera acquisition *)

Section Acquisition.
Variable P : Platform.

Lemma getMatchingCameraStream_no_subsystem constraints n :
  mediaDevices P = None ->
  _getMatchingCameraStream P constraints n = ([], Err CAMERA_NOT_FOUND).
Proof. intros H. destruct constraints; simpl; by rewrite H. Qed.

(** The requests go out in list order, they stop at the first one the
    platform grants, and the promise settles with that stream; it rejects
    when the list is used up. *)
Lemma getMatchingCameraStream_spec getUserMedia constraints n :
  mediaDevices P = Some getUserMedia ->
  match _getMatchingCameraStream P constraints n with
  | (sent, Ok stream) =>
      exists k c,
        constraints !! k = Some c /\
        getUserMedia (n + k) c = Some stream /\
        sent = take (S k) constraints /\
        forall j c', j < k -> constraints !! j = Some c' -> getUserMedia (n + j) c' = None
  | (sent, Err e) =>
      e = CAMERA_NOT_FOUND /\
      sent = constraints /\
      forall j c', constraints !! j = Some c' -> getUserMedia (n + j) c' = None
  end.
Proof.
  intros Hmd. revert n.
  induction constraints as [| c rest IH]; intros n; simpl; rewrite Hmd.
  - repeat split. intros j c' Hj. by rewrite lookup_nil in Hj.
  - destruct (getUserMedia n c) as [stream |] eqn:Hc.
    + exists 0, c. rewrite Nat.add_0_r. repeat split; try done.
      intros j c' Hj. lia.
    + specialize (IH (S n)).
      destruct (_getMatchingCameraStream P rest (S n)) as [sent [stream | e]].
      * destruct IH as (k & c0 & Hk & Hgum & Hsent & Hbefore).
        exists (S k), c0. repeat split.
        -- done.
        -- by replace (n + S k) with (S n + k) by lia.
        -- by rewrite Hsent.
        -- intros [| j] c' Hj Hlk; simpl in Hlk.
           ++ injection Hlk as <-. by rewrite Nat.add_0_r.
           ++ replace (n + S j) with (S n + j) by lia. apply Hbefore; [lia | done].
      * destruct IH as (-> & -> & Hall). repeat split.
        intros [| j] c' Hlk; simpl in Hlk.
        -- injection Hlk as <-. by rewrite Nat.add_0_r.
        -- replace (n + S j) with (S n + j) by lia. by apply Hall.
Qed.

Lemma constraintsToTry_widths preferredCamera exact :
  min_width <$> constraintsToTry preferredCamera exact = [Some 1024%Z; Some 768%Z; None].
Proof.
  unfold constraintsToTry. destruct preferredCamera as [camera |]; [| done].
  destruct (truthy_str camera); [| done].
  unfold annotate. by destruct (is_facing_mode camera).
Qed.

(** C5.  The constraint list is minimum width 1024, then 768, then none; a
    given (non-empty) camera preference is written into each entry, under
    [facingMode] when it is a facing mode and under [deviceId] otherwise, as
    an exact or a soft match.  The entries are requested in order; the promise
    resolves with the first stream granted, after which nothing more is
    requested, and rejects with 'Camera not found.' when every request fails
    or there is no [navigator.mediaDevices]. *)
Theorem camera_acquisition preferredCamera exact n :
  let constraints := constraintsToTry preferredCamera exact in
  min_width <$> constraints = [Some 1024%Z; Some 768%Z; None] /\
  (forall camera,
     preferredCamera = Some camera -> truthy_str camera = true ->
     let annotation := if exact then Exact camera else Soft camera in
     Forall (fun c =>
               if is_facing_mode camera
               then facingMode c = Some annotation /\ deviceId c = None
               else deviceId c = Some annotation /\ facingMode c = None)
            constraints) /\
  match mediaDevices P, _getCameraStream P preferredCamera exact n with
  | None, (sent, r) => sent = [] /\ r = Err CAMERA_NOT_FOUND
  | Some getUserMedia, (sent, Ok stream) =>
      exists k c,
        constraints !! k = Some c /\
        getUserMedia (n + k) c = Some stream /\
        sent = take (S k) constraints /\
        forall j c', j < k -> constraints !! j = Some c' -> getUserMedia (n + j) c' = None
  | Some getUserMedia, (sent, Err e) =>
      e = CAMERA_NOT_FOUND /\
      sent = constraints /\
      forall j c', constraints !! j = Some c' -> getUserMedia (n + j) c' = None
  end.
Proof.
  intros constraints. split; [apply constraintsToTry_widths |]. split.
  - intros camera -> Htruthy annotation. subst constraints.
    unfold constraintsToTry. rewrite Htruthy. fold annotation.
    unfold width_ladder, annotate. simpl.
    destruct (is_facing_mode camera); repeat constructor.
  - unfold _getCameraStream. fold constraints.
    destruct (mediaDevices P) as [getUserMedia |] eqn:Hmd.
    + by apply getMatchingCameraStream_spec.
    + by rewrite getMatchingCameraStream_no_subsystem.
Qed.

End Acquisition.

Lemma camera_acquisition_witness :
  Forall (fun c => facingMode c = Some (Exact "user") /\ deviceId c = None)
         (constraintsToTry (Some "user") true).
Proof.
  destruct (camera_acquisition phone (Some "user") true 0) as (_ & Hannotated & _).
  apply (Hannotated "user"); reflexivity.
Defined.

(** ** One-shot decode *)

Section OneShot.
Variable P : Platform.

Lemma scanImage_S fuel source scanRegion qrEngine canvas disallow also st :
  scanImage P (S fuel) source scanRegion qrEngine canvas disallow also st =
  let gotExternalWorker := is_worker qrEngine in
  let '(st, qrEngine, canvas, promise) :=
    scanImage_promise P gotExternalWorker source scanRegion qrEngine canvas disallow st in
  let '(st, promise) :=
    match scanRegion, also, promise with
    | Some _, true, Err _ => scanImage P fuel source None qrEngine canvas disallow false st
    | _, _, _ => (st, Some promise)
    end in
  match promise with
  | None => (st, None)
  | Some r =>
      (if gotExternalWorker then st else _postWorkerMessage qrEngine Close st, Some r)
  end.
Proof. reflexivity. Qed.

(** A call that has nothing to retry settles with its first promise. *)
Lemma scanImage_single fuel source scanRegion qrEngine canvas disallow also st :
  scanRegion = None \/ also = false ->
  scanImage P (S fuel) source scanRegion qrEngine canvas disallow also st =
  let '(st1, qrEngine1, _, promise) :=
    scanImage_promise P (is_worker qrEngine) source scanRegion qrEngine canvas disallow st in
  (if is_worker qrEngine then st1 else _postWorkerMessage qrEngine1 Close st1,
   Some promise).
Proof.
  intros Hsingle. rewrite scanImage_S. cbv zeta.
  destruct (scanImage_promise P (is_worker qrEngine) source scanRegion qrEngine canvas
              disallow st) as [[[st1 qrEngine1] canvas1] promise].
  destruct Hsingle as [-> | ->]; [done |].
  by destruct scanRegion, promise.
Qed.

(** Two units of fuel are enough for every call: [scanImage] always settles. *)
Lemma scanImage_fuel fuel source scanRegion qrEngine canvas disallow also st :
  scanImage P (S (S fuel)) source scanRegion qrEngine canvas disallow also st =
  scanImage P 2 source scanRegion qrEngine canvas disallow also st.
Proof.
  rewrite (scanImage_S (S fuel)), (scanImage_S 1). cbv zeta.
  destruct (scanImage_promise P (is_worker qrEngine) source scanRegion qrEngine canvas
              disallow st) as [[[st1 qrEngine1] canvas1] promise].
  by destruct scanRegion as [r |], also, promise as [payload | e].
Qed.

Lemma scanImage_settles fuel source scanRegion qrEngine canvas disallow also st :
  exists r, snd (scanImage P (S (S fuel)) source scanRegion qrEngine canvas disallow also st)
            = Some r.
Proof.
  rewrite scanImage_fuel, (scanImage_S 1). cbv zeta.
  destruct (scanImage_promise P (is_worker qrEngine) source scanRegion qrEngine canvas
              disallow st) as [[[st1 qrEngine1] canvas1] promise].
  destruct scanRegion as [r |], also, promise as [payload | e];
    try (simpl; eauto; fail).
  rewrite scanImage_single by (by left).
  destruct (scanImage_promise _ _ _ _ _ _ _ _) as [[[? ?] ?] ?]. simpl. eauto.
Qed.

Lemma submitted_postWorkerMessage qrEngine m st :
  submitted (_postWorkerMessage qrEngine m st) = submitted st.
Proof.
  unfold _postWorkerMessage. destruct qrEngine as [e |]; [| done].
  by destruct (is_worker (Some e)).
Qed.

(** A decode request goes to the engine once, with the pixels of the canvas,
    and settles as the engine answers. *)
Lemma request_decode_spec gotExternalWorker engine canvas st :
  let '(st', r) := request_decode P gotExternalWorker engine canvas st in
  r = settle (decode P (length (submitted st)) engine (pixels canvas)) /\
  submitted st' = submitted st ++ [(engine, pixels canvas)] /\
  created st' = created st.
Proof.
  unfold request_decode, getImageData.
  destruct (is_worker (Some engine)), gotExternalWorker; simpl; done.
Qed.

Lemma engine_of_submitted qrEngine st :
  submitted (fst (engine_of P qrEngine st)) = submitted st.
Proof.
  unfold engine_of, createQrEngine. destruct qrEngine; [done |].
  destruct (barcodeDetector P) as [[formats | e] |]; done.
Qed.

Lemma drawToCanvas_no_region image canvas disallow :
  let drawn := _drawToCanvas image None canvas disallow in
  pixels drawn =
    Some {| bm_image := image; bm_sx := 0; bm_sy := 0;
            bm_sw := frame_width image; bm_sh := frame_height image;
            bm_dw := canvas_width drawn; bm_dh := canvas_height drawn |}.
Proof. reflexivity. Qed.

(** The call with a region and [alsoTryWithoutScanRegion], on an image that
    loads, written out. *)
Lemma scanImage_retry_eq fuel source image r qrEngine engine canvas disallow st st1 :
  _loadImage source = Ok image ->
  engine_of P qrEngine st = (st1, Ok engine) ->
  let first := _drawToCanvas image (Some r) canvas disallow in
  let second := _drawToCanvas image None (Some first) disallow in
  scanImage P (S (S fuel)) source (Some r) qrEngine canvas disallow true st =
  let '(st2, r1) := request_decode P (is_worker qrEngine) engine first st1 in
  match r1 with
  | Ok payload =>
      (if is_worker qrEngine then st2 else _postWorkerMessage (Some engine) Close st2,
       Some (Ok payload))
  | Err _ =>
      let '(st3, r2) := request_decode P (is_worker (Some engine)) engine second st2 in
      let st4 :=
        if is_worker (Some engine) then st3
        else _postWorkerMessage (Some engine) Close st3 in
      (if is_worker qrEngine then st4 else _postWorkerMessage (Some engine) Close st4,
       Some r2)
  end.
Proof.
  intros Hload Hengine first second.
  rewrite scanImage_S. cbv zeta.
  unfold scanImage_promise at 1. rewrite Hengine, Hload. fold first.
  destruct (request_decode P (is_worker qrEngine) engine first st1) as [st2 [payload | e]].
  - reflexivity.
  - rewrite scanImage_single by (by left).
    unfold scanImage_promise, engine_of. rewrite Hload. cbv beta iota zeta. fold second.
    destruct (request_decode P (is_worker (Some engine)) engine second st2) as [st3 r2].
    reflexivity.
Qed.

(** With [alsoTryWithoutScanRegion] and a scan region, on an image that
    loads: the region is decoded first; when that succeeds the call resolves
    with its payload after that single request; when it fails, the canvas is
    drawn again without a region, from the origin over the extent that
    [_drawToCanvas] falls back to, and decoded, once, and the call settles as
    that second request does. *)
Lemma scanImage_retries_once fuel source image r qrEngine engine canvas disallow st st1 :
  _loadImage source = Ok image ->
  engine_of P qrEngine st = (st1, Ok engine) ->
  let first := _drawToCanvas image (Some r) canvas disallow in
  let second := _drawToCanvas image None (Some first) disallow in
  let n := length (submitted st) in
  let result := scanImage P (S (S fuel)) source (Some r) qrEngine canvas disallow true st in
  pixels second =
    Some {| bm_image := image; bm_sx := 0; bm_sy := 0;
            bm_sw := frame_width image; bm_sh := frame_height image;
            bm_dw := canvas_width second; bm_dh := canvas_height second |} /\
  match decode P n engine (pixels first) with
  | Found payload =>
      snd result = Some (Ok payload) /\
      submitted (fst result) = submitted st ++ [(engine, pixels first)]
  | _ =>
      snd result = Some (settle (decode P (S n) engine (pixels second))) /\
      submitted (fst result) =
        submitted st ++ [(engine, pixels first); (engine, pixels second)]
  end /\
  (forall payload,
     decode P n engine (pixels first) = NothingFound ->
     decode P (S n) engine (pixels second) = Found payload ->
     snd result = Some (Ok payload)).
Proof.
  intros Hload Hengine first second n result.
  split; [apply drawToCanvas_no_region |].
  assert (Hsub1 : submitted st1 = submitted st).
  { pose proof (engine_of_submitted qrEngine st) as H. by rewrite Hengine in H. }
  assert (Hmain :
    match decode P n engine (pixels first) with
    | Found payload =>
        snd result = Some (Ok payload) /\
        submitted (fst result) = submitted st ++ [(engine, pixels first)]
    | _ =>
        snd result = Some (settle (decode P (S n) engine (pixels second))) /\
        submitted (fst result) =
          submitted st ++ [(engine, pixels first); (engine, pixels second)]
    end).
  { subst result.
    rewrite (scanImage_retry_eq fuel source image r qrEngine engine canvas disallow st st1)
      by done.
    cbv zeta. fold first second.
    pose proof (request_decode_spec (is_worker qrEngine) engine first st1) as Hreq1.
    destruct (request_decode P (is_worker qrEngine) engine first st1) as [st2 r1].
    destruct Hreq1 as (Hr1 & Hsub2 & _). rewrite Hsub1 in Hr1, Hsub2. fold n in Hr1.
    pose proof (request_decode_spec (is_worker (Some engine)) engine second st2) as Hreq2.
    destruct (request_decode P (is_worker (Some engine)) engine second st2) as [st3 r2].
    destruct Hreq2 as (Hr2 & Hsub3 & _).
    rewrite Hsub2, length_app in Hr2. cbn [length] in Hr2.
    replace (length (submitted st) + 1) with (S n) in Hr2 by (subst n; lia).
    rewrite Hsub2, <- app_assoc in Hsub3. cbn [app] in Hsub3.
    destruct (decode P n engine (pixels first)) eqn:Hfirst; cbn [settle] in Hr1; subst r1;
      cbn [fst snd]; (split; [by rewrite ?Hr2 |]);
      destruct (is_worker qrEngine), (is_worker (Some engine));
      by rewrite ?submitted_postWorkerMessage. }
  split; [exact Hmain |].
  intros payload Hfirst Hsecond. rewrite Hfirst in Hmain.
  destruct Hmain as [-> _]. by rewrite Hsecond.
Qed.


(** *** Engine ownership *)

Lemma request_decode_posted gotExternalWorker engine canvas st :
  exists msgs,
    posted (request_decode P gotExternalWorker engine canvas st).1 = posted st ++ msgs /\
    Forall not_close msgs.
Proof.
  unfold request_decode, getImageData, not_close.
  destruct (is_worker (Some engine)), gotExternalWorker;
    cbn [fst posted postMessage record_request].
  - eexists [_]. split; [done |]. by repeat constructor.
  - eexists [_; _]. rewrite <- app_assoc. split; [done |]. by repeat constructor.
  - exists []. by rewrite app_nil_r.
  - exists []. by rewrite app_nil_r.
Qed.

(** The [.finally] callback leaves a supplied engine alone: a supplied worker
    is skipped, and for a supplied native detector [_postWorkerMessage] does
    nothing. *)
Lemma finally_keeps_external e st :
  (if is_worker (Some e) then st else _postWorkerMessage (Some e) Close st) = st.
Proof. unfold _postWorkerMessage. by destruct (is_worker (Some e)). Qed.

Lemma scanImage_promise_external gotExternalWorker source scanRegion e canvas disallow st :
  let '(st1, qrEngine1, _, _) :=
    scanImage_promise P gotExternalWorker source scanRegion (Some e) canvas disallow st in
  qrEngine1 = Some e /\
  created st1 = created st /\
  exists msgs, posted st1 = posted st ++ msgs /\ Forall not_close msgs.
Proof.
  unfold scanImage_promise, engine_of.
  destruct (_loadImage source) as [image | err]; cbv beta iota zeta.
  - pose proof (request_decode_posted gotExternalWorker e
                  (_drawToCanvas image scanRegion canvas disallow) st) as Hposted.
    pose proof (request_decode_spec gotExternalWorker e
                  (_drawToCanvas image scanRegion canvas disallow) st) as Hspec.
    destruct (request_decode P gotExternalWorker e _ st) as [st1 r].
    destruct Hspec as (_ & _ & Hcreated). done.
  - repeat split. exists []. by rewrite app_nil_r.
Qed.

(** X13.  A supplied engine is never sent the shutdown message by the call,
    however the call ends, and the call creates no engine. *)
Lemma scanImage_external_not_closed fuel source scanRegion e canvas disallow also st :
  let result := scanImage P (S (S fuel)) source scanRegion (Some e) canvas disallow also st in
  created (fst result) = created st /\
  exists msgs, posted (fst result) = posted st ++ msgs /\ Forall not_close msgs.
Proof.
  cbv zeta. rewrite scanImage_S. cbv zeta.
  pose proof (scanImage_promise_external (is_worker (Some e)) source scanRegion e canvas
                disallow st) as H1.
  destruct (scanImage_promise P (is_worker (Some e)) source scanRegion (Some e) canvas
              disallow st) as [[[st1 qrEngine1] canvas1] promise].
  destruct H1 as (-> & Hcreated1 & msgs1 & Hposted1 & Hmsgs1).
  assert (Hdone : forall r : Result string,
    let result := (if is_worker (Some e) then st1 else _postWorkerMessage (Some e) Close st1,
                   Some r) in
    created (fst result) = created st /\
    exists msgs, posted (fst result) = posted st ++ msgs /\ Forall not_close msgs).
  { intros r. cbv zeta. cbn [fst]. rewrite finally_keeps_external. eauto. }
  destruct scanRegion as [region |], also, promise as [payload | err]; try apply Hdone.
  rewrite scanImage_single by (by left).
  pose proof (scanImage_promise_external (is_worker (Some e)) source None e canvas1
                disallow st1) as H2.
  destruct (scanImage_promise P (is_worker (Some e)) source None (Some e) canvas1
              disallow st1) as [[[st2 qrEngine2] canvas2] promise2].
  destruct H2 as (-> & Hcreated2 & msgs2 & Hposted2 & Hmsgs2).
  cbn [fst]. rewrite !finally_keeps_external. split; [congruence |].
  exists (msgs1 ++ msgs2). rewrite Hposted2, Hposted1, app_assoc. split; [done |].
  by apply Forall_app.
Qed.

(** C8, where the code departs from the claim.  With no engine supplied, on a
    platform without a native detector, a call whose image fails to load
    creates a worker for each attempt and sends none of them anything: the
    [.finally] callback reads a [qrEngine] that the skipped [.then] callback
    never assigned. *)
Theorem scanImage_load_failure_leaks_engine fuel source scanRegion canvas disallow also st e :
  barcodeDetector P = None ->
  _loadImage source = Err e ->
  let result := scanImage P (S (S fuel)) source scanRegion None canvas disallow also st in
  snd result = Some (Err e) /\
  posted (fst result) = posted st /\
  exists workers,
    workers <> [] /\
    created (fst result) = created st ++ workers /\
    Forall (fun w => engine_kind w = WorkerEngine) workers.
Proof.
  intros Hnative Hload. cbv zeta. rewrite scanImage_S. cbv zeta.
  assert (Hpromise : forall region canvas' st',
    scanImage_promise P false source region None canvas' disallow st' =
    ({| created := created st' ++
                   [{| engine_id := length (created st'); engine_kind := WorkerEngine |}];
        posted := posted st'; submitted := submitted st' |}, None, canvas', Err e)).
  { intros. unfold scanImage_promise, engine_of, createQrEngine.
    by rewrite Hnative, Hload. }
  cbn [is_worker]. rewrite Hpromise.
  destruct scanRegion as [region |], also; cbn [fst snd _postWorkerMessage created posted];
    try (repeat split; eexists [_]; by repeat split; repeat constructor).
  rewrite scanImage_single by (by left). cbn [is_worker]. rewrite Hpromise.
  cbn [fst snd _postWorkerMessage created posted].
  repeat split. eexists [_; _]. rewrite <- app_assoc. by repeat split; repeat constructor.
Qed.

(** X14.  An engine that the call created itself is the one the bitmap goes
    to, and when the image loads it is sent the shutdown message last (a
    native detector has nothing to shut down). *)
Lemma scanImage_internal_closed fuel source image scanRegion canvas disallow also st st1 engine :
  _loadImage source = Ok image ->
  createQrEngine P st = (st1, Ok engine) ->
  let result := scanImage P (S (S fuel)) source scanRegion None canvas disallow also st in
  created (fst result) = created st ++ [engine] /\
  exists msgs,
    posted (fst result) =
      posted st ++ msgs
      ++ (if is_worker (Some engine) then [(engine_id engine, Close)] else []) /\
    Forall not_close msgs.
Proof.
  intros Hload Hcreate. cbv zeta. rewrite scanImage_S. cbv zeta.
  assert (Hst1 : created st1 = created st ++ [engine] /\ posted st1 = posted st).
  { unfold createQrEngine in Hcreate.
    destruct (barcodeDetector P) as [[formats | err] |]; try discriminate;
      injection Hcreate as <- <-; done. }
  destruct Hst1 as [Hcreated1 Hposted1].
  unfold scanImage_promise, engine_of. rewrite Hcreate, Hload.
  set (first := _drawToCanvas image scanRegion canvas disallow).
  pose proof (request_decode_posted (is_worker None) engine first st1) as Hp.
  pose proof (request_decode_spec (is_worker None) engine first st1) as Hs.
  destruct (request_decode P (is_worker None) engine first st1) as [st2 r1].
  destruct Hp as (msgs1 & Hposted2 & Hmsgs1). destruct Hs as (_ & _ & Hcreated2).
  cbn [fst] in Hposted2.
  assert (Hclose : forall st',
    posted (_postWorkerMessage (Some engine) Close st') =
      posted st' ++ (if is_worker (Some engine) then [(engine_id engine, Close)] else []) /\
    created (_postWorkerMessage (Some engine) Close st') = created st').
  { intros st'. unfold _postWorkerMessage. destruct (is_worker (Some engine)); [done |].
    by rewrite app_nil_r. }
  assert (Hdone : forall r : Result string,
    let result := (if is_worker None then st2 else _postWorkerMessage (Some engine) Close st2,
                   Some r) in
    created (fst result) = created st ++ [engine] /\
    exists msgs,
      posted (fst result) =
        posted st ++ msgs
        ++ (if is_worker (Some engine) then [(engine_id engine, Close)] else []) /\
      Forall not_close msgs).
  { intros r. cbv zeta. change (is_worker None) with false. cbn [fst].
    destruct (Hclose st2) as [-> ->].
    split; [congruence |]. exists msgs1. by rewrite Hposted2, Hposted1, app_assoc. }
  destruct scanRegion as [region |], also, r1 as [payload | err]; try apply Hdone.
  rewrite scanImage_single by (by left).
  pose proof (scanImage_promise_external (is_worker (Some engine)) source None engine
                (Some first) disallow st2) as H2.
  destruct (scanImage_promise P (is_worker (Some engine)) source None (Some engine)
              (Some first) disallow st2) as [[[st3 qrEngine3] canvas3] promise3].
  destruct H2 as (-> & Hcreated3 & msgs2 & Hposted3 & Hmsgs2).
  change (is_worker None) with false. cbn [fst].
  rewrite finally_keeps_external. destruct (Hclose st3) as [-> ->].
  split; [congruence |].
  exists (msgs1 ++ msgs2). rewrite Hposted3, Hposted2, Hposted1, !app_assoc.
  split; [done |]. by apply Forall_app.
Qed.

End OneShot.

(** C7, where the code departs from the claim.  For an element whose
    [width] and [height] properties are not zero, as of a video element with
    these attributes, the retry after a failed region draws the rectangle of
    that size from the origin, whatever the frame's own dimensions are, and
    the call settles as the engine answers on that bitmap.  Where the
    attributes differ from the dimensions of the frame, what is decoded is
    not the whole frame: a symbol outside the rectangle is not found. *)
Theorem scanImage_retry_draws_element_size P fuel source image r qrEngine engine canvas
    disallow st st1 :
  _loadImage source = Ok image ->
  engine_of P qrEngine st = (st1, Ok engine) ->
  truthy (img_width image) = true ->
  truthy (img_height image) = true ->
  let first := _drawToCanvas image (Some r) canvas disallow in
  let n := length (submitted st) in
  (forall payload, decode P n engine (pixels first) <> Found payload) ->
  let result := scanImage P (S (S fuel)) source (Some r) qrEngine canvas disallow true st in
  exists retry,
    submitted (fst result) =
      submitted st ++ [(engine, pixels first); (engine, Some retry)] /\
    bm_image retry = image /\
    (bm_sx retry, bm_sy retry, bm_sw retry, bm_sh retry)
      = (0, 0, img_width image, img_height image)%Z /\
    snd result = Some (settle (decode P (S n) engine (Some retry))) /\
    (img_width image <> videoWidth image \/ img_height image <> videoHeight image ->
     covers_native_frame retry = false).
Proof.
  intros Hload Hengine Hwidth Hheight first n Hfails result.
  destruct (scanImage_retries_once P fuel source image r qrEngine engine canvas disallow
              st st1 Hload Hengine) as (Hpixels & Hmain & _).
  cbv zeta in Hpixels, Hmain.
  assert (Hw : frame_width image = img_width image)
    by (unfold frame_width, js_or; by rewrite Hwidth).
  assert (Hh : frame_height image = img_height image)
    by (unfold frame_height, js_or; by rewrite Hheight).
  rewrite Hw, Hh in Hpixels. rewrite Hpixels in Hmain.
  fold first n result in Hmain.
  set (retry := {| bm_image := image; bm_sx := 0; bm_sy := 0;
                   bm_sw := img_width image; bm_sh := img_height image;
                   bm_dw := _; bm_dh := _ |}) in Hmain.
  exists retry.
  assert (Hretry : snd result = Some (settle (decode P (S n) engine (Some retry))) /\
                   submitted (fst result) =
                     submitted st ++ [(engine, pixels first); (engine, Some retry)]).
  { destruct (decode P n engine (pixels first)) as [payload | | message |] eqn:Hfirst;
      [by destruct (Hfails payload) | exact Hmain ..]. }
  destruct Hretry as [Hresult Hsubmitted].
  split; [exact Hsubmitted |]. split; [done |]. split; [done |].
  split; [exact Hresult |].
  intros Hdiffer. unfold covers_native_frame, retry.
  cbn [bm_image bm_sx bm_sy bm_sw bm_sh].
  destruct Hdiffer as [Hd | Hd]; apply Z.eqb_neq in Hd; rewrite Hd;
    by rewrite ?andb_false_r.
Qed.

Lemma scanImage_retry_draws_element_size_witness :
  snd (scanImage frame_reader 2 (Drawable sized_video) (Some corner_region) None None
         false true no_engines)
  = Some (Err NO_QR_CODE_FOUND) /\
  decode frame_reader 1 {| engine_id := 0; engine_kind := WorkerEngine |}
    (Some {| bm_image := sized_video; bm_sx := 0; bm_sy := 0;
             bm_sw := 1280; bm_sh := 720; bm_dw := 1280; bm_dh := 720 |})
  = Found "ABC123".
Proof.
  split; [| reflexivity].
  destruct (scanImage_retry_draws_element_size frame_reader 0 (Drawable sized_video)
              sized_video corner_region None
              {| engine_id := 0; engine_kind := WorkerEngine |} None false no_engines
              {| created := [{| engine_id := 0; engine_kind := WorkerEngine |}];
                 posted := []; submitted := [] |})
    as (retry & _ & _ & _ & Hresult & Hmisses).
  - reflexivity.
  - reflexivity.
  - reflexivity.
  - reflexivity.
  - intros payload. vm_compute. discriminate.
  - rewrite Hresult. cbn [decode frame_reader].
    rewrite Hmisses; [reflexivity |]. left. vm_compute. discriminate.
Defined.

Lemma scanImage_load_failure_leaks_engine_witness :
  created (fst (scanImage phone 2 Unsupported None None None false false no_engines))
    = [{| engine_id := 0; engine_kind := WorkerEngine |}] /\
  posted (fst (scanImage phone 2 Unsupported None None None false false no_engines)) = [].
Proof.
  destruct (scanImage_load_failure_leaks_engine phone 0 Unsupported None None false false
              no_engines UNSUPPORTED_IMAGE eq_refl eq_refl)
    as (_ & Hposted & _).
  split; [reflexivity | exact Hposted].
Defined.

(** ** Streams and their teardown *)

Lemma getTracks_removeTrack stream t w :
  getTracks (removeTrack stream t w) stream =
  List.filter (fun u => negb (Nat.eqb (track_id u) (track_id t))) (getTracks w stream).
Proof.
  unfold getTracks, removeTrack. cbn [attached set_attached].
  rewrite lookup_alter_eq. by destruct (attached w !! stream).
Qed.

Lemma filter_filter {A} (f g : A -> bool) (l : list A) :
  List.filter f (List.filter g l) = List.filter (fun x => g x && f x) l.
Proof.
  induction l as [| x l IH]; [done |]. cbn [List.filter].
  destruct (g x); cbn [List.filter andb]; [| done].
  destruct (f x); by rewrite IH.
Qed.

Lemma filter_all {A} (l : list A) : List.filter (fun _ => true) l = l.
Proof. induction l as [| x l IH]; [done |]. cbn. by rewrite IH. Qed.

Lemma getTracks_stop_tracks stream l w :
  getTracks (stop_tracks stream l w) stream =
  List.filter (differs_from_all l) (getTracks w stream).
Proof.
  revert w. induction l as [| t l IH]; intros w.
  - cbn. by rewrite filter_all.
  - cbn [stop_tracks]. rewrite IH, getTracks_removeTrack, filter_filter. done.
Qed.

Lemma filter_differs_from_own l l' :
  (forall u, u ∈ l' -> u ∈ l) -> List.filter (differs_from_all l) l' = [].
Proof.
  induction l' as [| u l' IH]; intros Hsub; [done |]. cbn [List.filter].
  assert (Hu : differs_from_all l u = false).
  { unfold differs_from_all. apply not_true_is_false. intros Hall.
    rewrite forallb_forall in Hall.
    assert (Hin : In u l) by (apply list_elem_of_In, Hsub; left).
    specialize (Hall u Hin). by rewrite Nat.eqb_refl in Hall. }
  rewrite Hu. apply IH. intros v Hv. apply Hsub. by right.
Qed.

Lemma stopped_stop_tracks stream l w i :
  i ∈ stopped (stop_tracks stream l w) <->
  i ∈ stopped w \/ exists t, t ∈ l /\ track_id t = i.
Proof.
  revert w. induction l as [| t l IH]; intros w.
  - cbn. split; [by left |]. intros [H | (t & Ht & _)]; [done |]. by apply elem_of_nil in Ht.
  - cbn [stop_tracks]. rewrite IH.
    cbn [stopped removeTrack stop_track set_attached set_stopped].
    rewrite elem_of_union, elem_of_singleton. split.
    + intros [[-> | H] | (u & Hu & <-)].
      * right. exists t. split; [left | done].
      * by left.
      * right. exists u. split; [by right | done].
    + intros [H | (u & Hu & <-)]; [left; by right |].
      apply elem_of_cons in Hu as [-> | Hu]; [left; by left |].
      right. by exists u.
Qed.

Lemma stop_tracks_frame stream l w :
  this (stop_tracks stream l w) = this w /\
  video (stop_tracks stream l w) = video w /\
  document_hidden (stop_tracks stream l w) = document_hidden w /\
  tasks (stop_tracks stream l w) = tasks w /\
  trace (stop_tracks stream l w) = trace w.
Proof.
  revert w. induction l as [| t l IH]; intros w; [done |].
  cbn [stop_tracks].
  destruct (IH (removeTrack stream t (stop_track t w))) as (-> & -> & -> & -> & ->). done.
Qed.

Lemma stopStream_frame w :
  this (stopStream w) = this w /\
  video (stopStream w) = set_srcObject None (video w) /\
  document_hidden (stopStream w) = document_hidden w /\
  tasks (stopStream w) = tasks w /\
  trace (stopStream w) = trace w.
Proof.
  unfold stopStream. destruct (srcObject (video w)) as [stream |]; [| done].
  cbn [this video document_hidden tasks trace on_video].
  destruct (stop_tracks_frame stream (getTracks w stream) w) as (-> & -> & -> & -> & ->).
  done.
Qed.

Lemma stopStream_torn_down w : torn_down w (stopStream w).
Proof.
  split.
  - destruct (stopStream_frame w) as (_ & -> & _). done.
  - intros stream Hsrc. unfold stopStream. rewrite Hsrc.
      unfold getTracks at 1. cbn [attached stopped on_video].
    fold (getTracks (stop_tracks stream (getTracks w stream) w) stream).
    split.
    + rewrite getTracks_stop_tracks. by apply filter_differs_from_own.
    + intros t Ht. apply stopped_stop_tracks. right. by exists t.
Qed.

Lemma stopStream_none w : srcObject (video w) = None -> stopStream w = w.
Proof.
  intros Hsrc. unfold stopStream. rewrite Hsrc.
  destruct w as [s v h a st t tr]. destruct v as [src p e tf].
  cbn in *. by subst.
Qed.

Lemma stopStream_idempotent w : stopStream (stopStream w) = stopStream w.
Proof. apply stopStream_none. by destruct (stopStream_frame w) as (_ & -> & _). Qed.

(** ** Pausing and stopping *)

Lemma pause_immediately_resolved w : snd (pause true w) = Some true.
Proof. unfold pause. by destruct (_active (this (on_this (set_paused true) w))). Qed.

Lemma pause_deferred_active w :
  _active (this w) = true ->
  pause false w =
  (on_tasks (fun t => set_timers (timers t ++ [clock t + PAUSE_DELAY]) t)
            (video_pause (on_this (set_paused true) w)), None).
Proof. intros Hactive. unfold pause. cbn [_active this on_this set_paused]. by rewrite Hactive. Qed.

Lemma pause_inactive stopStreamImmediately w :
  _active (this w) = false ->
  pause stopStreamImmediately w = (on_this (set_paused true) w, Some true).
Proof. intros Hactive. unfold pause. cbn [_active this on_this set_paused]. by rewrite Hactive. Qed.

Lemma pause_immediate_active w :
  _active (this w) = true ->
  pause true w = (stopStream (video_pause (on_this (set_paused true) w)), Some true).
Proof. intros Hactive. unfold pause. cbn [_active this on_this set_paused]. by rewrite Hactive. Qed.

Lemma fire_timers_unpaused due w :
  _paused (this w) = false -> fire_timers due w = w.
Proof.
  intros Hp. induction due as [| d due IH]; [done |].
  cbn [fire_timers]. unfold pause_elapsed. rewrite Hp. cbn. exact IH.
Qed.

Lemma fire_timers_no_stream due w :
  srcObject (video w) = None -> fire_timers due w = w.
Proof.
  intros Hsrc. induction due as [| d due IH]; [done |].
  cbn [fire_timers]. unfold pause_elapsed.
  destruct (_paused (this w)); cbn [negb fst]; [| exact IH].
  by rewrite stopStream_none.
Qed.

Lemma fire_timers_paused due w :
  _paused (this w) = true -> due <> [] -> fire_timers due w = stopStream w.
Proof.
  intros Hp Hdue. destruct due as [| d due]; [done |].
  cbn [fire_timers]. unfold pause_elapsed. rewrite Hp. cbn [negb fst].
  apply fire_timers_no_stream. by destruct (stopStream_frame w) as (_ & -> & _).
Qed.

Lemma torn_down_transfer w v x :
  stream_intact w v -> torn_down v x -> torn_down w x.
Proof.
  intros (Hsrc & Hatt & _) [Hnone Htracks]. split; [done |].
  intros stream Hw. rewrite <- Hsrc in Hw.
  destruct (Htracks stream Hw) as [Hempty Hstopped]. split; [done |].
  intros t Ht. apply Hstopped. unfold getTracks in *. by rewrite Hatt.
Qed.

Lemma filter_nonempty {A} (f : A -> bool) (l : list A) (x : A) :
  In x l -> f x = true -> List.filter f l <> [].
Proof.
  intros Hin Hf Hnil.
  assert (Hx : In x (List.filter f l)) by (apply filter_In; done).
  by rewrite Hnil in Hx.
Qed.

(** Once the scanner is paused and a timer is due, time passing tears the
    stream down. *)
Lemma elapse_paused_due ms w d :
  _paused (this w) = true ->
  In d (timers (tasks w)) -> d <= clock (tasks w) + ms ->
  torn_down w (elapse ms w).
Proof.
  intros Hp Hin Hd. unfold elapse.
  rewrite fire_timers_paused.
  - eapply torn_down_transfer; [| apply stopStream_torn_down]. done.
  - done.
  - eapply filter_nonempty; [exact Hin |]. by apply Nat.leb_le.
Qed.

(** C1, as the claim states it, fails: when [stop()] returns on a scanner that
    shows its camera, the stream is still the video's source, its track is
    attached and has not been stopped. *)
Lemma stop_returns_before_teardown :
  _active (this scanning) = true /\
  srcObject (video scanning) = Some 7 /\
  srcObject (video (stop scanning)) = Some 7 /\
  getTracks (stop scanning) 7 = [back_track] /\
  (1 ∉ stopped (stop scanning)) /\
  ~ torn_down scanning (stop scanning).
Proof.
  assert (Hsrc : srcObject (video (stop scanning)) = Some 7) by reflexivity.
  repeat split; try reflexivity.
  - vm_compute. set_solver.
  - intros [Hnone _]. congruence.
Qed.

(** C1 (amended).  [stop()] leaves the scanner inactive and paused.  On an
    inactive scanner it does nothing else.  On an active scanner it pauses
    the video and sets the 300 ms timer of a deferred [pause()]; when it
    returns the stream and its tracks are untouched, and they are torn down
    once that time has passed. *)
Theorem stop_defers_teardown w :
  _active (this (stop w)) = false /\
  _paused (this (stop w)) = true /\
  (_active (this w) = false ->
     stop w = on_this (fun s => set_active false (set_paused true s)) w) /\
  (_active (this w) = true ->
     paused (video (stop w)) = true /\
     stream_intact w (stop w) /\
     timers (tasks (stop w)) = timers (tasks w) ++ [clock (tasks w) + PAUSE_DELAY] /\
     forall ms, PAUSE_DELAY <= ms -> torn_down w (elapse ms (stop w))).
Proof.
  unfold stop, pause. cbn [_active this on_this set_paused].
  destruct (_active (this w)) eqn:Hactive; cbn [negb fst].
  - do 3 (split; [done |]). intros _. do 3 (split; [done |]).
    intros ms Hms.
    eapply torn_down_transfer;
      [| eapply elapse_paused_due with (d := clock (tasks w) + PAUSE_DELAY)].
    + done.
    + done.
    + cbn. apply in_or_app. right. by left.
    + cbn. lia.
  - do 3 (split; [done |]). done.
Qed.

Lemma stop_defers_teardown_witness :
  torn_down scanning (elapse 300 (stop scanning)).
Proof.
  apply (stop_defers_teardown scanning); [reflexivity | unfold PAUSE_DELAY; lia].
Defined.

(** ** The deferred teardown *)

Lemma elapse_unpaused ms w :
  _paused (this w) = false -> elapse ms w = advance ms w.
Proof. intros Hp. unfold elapse. by rewrite fire_timers_unpaused. Qed.

Lemma elapse_no_stream ms w :
  srcObject (video w) = None -> elapse ms w = advance ms w.
Proof. intros Hsrc. unfold elapse. by rewrite fire_timers_no_stream. Qed.

Lemma filter_none {A} (f : A -> bool) (l : list A) :
  Forall (fun x => f x = false) l -> List.filter f l = [].
Proof.
  induction 1 as [| x l Hx _ IH]; [done |]. cbn. by rewrite Hx.
Qed.

Lemma filter_keeps {A} (f : A -> bool) (l : list A) :
  Forall (fun x => f x = true) l -> List.filter f l = l.
Proof.
  induction 1 as [| x l Hx _ IH]; [done |]. cbn. by rewrite Hx, IH.
Qed.

Lemma elapse_idle ms w :
  Forall (fun d => clock (tasks w) + ms < d) (timers (tasks w)) ->
  elapse ms w = advance ms w.
Proof.
  intros Hlate. unfold elapse. rewrite filter_none; [done |].
  eapply Forall_impl; [exact Hlate |]. intros d Hd. cbn beta in *.
  apply Nat.leb_gt. lia.
Qed.

Lemma advance_timers_idle ms w :
  Forall (fun d => clock (tasks w) + ms < d) (timers (tasks w)) ->
  timers (tasks (advance ms w)) = timers (tasks w).
Proof.
  intros Hlate. cbn. apply filter_keeps.
  eapply Forall_impl; [exact Hlate |]. intros d Hd. cbn beta in *.
  apply negb_true_iff, Nat.leb_gt. lia.
Qed.

Lemma fire_timers_frame due w :
  this (fire_timers due w) = this w /\
  tasks (fire_timers due w) = tasks w /\
  document_hidden (fire_timers due w) = document_hidden w /\
  trace (fire_timers due w) = trace w.
Proof.
  revert w. induction due as [| d due IH]; intros w; [done |].
  cbn [fire_timers].
  destruct (IH (fst (pause_elapsed w))) as (-> & -> & -> & ->).
  unfold pause_elapsed. destruct (_paused (this w)); cbn [negb fst]; [| done].
  by destruct (stopStream_frame w) as (-> & _ & -> & -> & ->).
Qed.

Lemma elapse_frame ms w :
  this (elapse ms w) = this w /\
  tasks (elapse ms w) = tasks (advance ms w).
Proof.
  unfold elapse.
  destruct (fire_timers_frame
    (List.filter (fun t => (t <=? clock (tasks w) + ms)%nat) (timers (tasks w)))
    (advance ms w)) as (H1 & H2 & _).
  unfold advance in *. by rewrite H1, H2.
Qed.

Lemma Forall_filter_keep {A} (Q : A -> Prop) (f : A -> bool) (l : list A) :
  Forall Q l -> Forall Q (List.filter f l).
Proof.
  induction 1 as [| x l Hx _ IH]; [constructor |]. cbn.
  destruct (f x); [by constructor | done].
Qed.

Section Debounce.
Variable P : Platform.

Lemma run_cons e events w : run P (e :: events) w = run P events (step P e w).
Proof. reflexivity. Qed.

Lemma pause_debounced w :
  _active (this w) = true -> timers (tasks w) = [] ->
  debounced (clock (tasks w)) w (step P (Call_pause false) w).
Proof.
  intros Hactive Htimers. cbn [step]. unfold pause.
  cbn [_active this on_this set_paused]. rewrite Hactive. cbn [negb fst].
  unfold debounced. cbn. rewrite Htimers. repeat split; try done.
  - repeat constructor.
  - left. unfold PAUSE_DELAY. repeat split; try lia. by left.
Qed.

Lemma step_debounced t0 w0 w e :
  debounced t0 w0 w -> pause_or_wait e -> debounced t0 w0 (step P e w).
Proof.
  intros (Hactive & Hpaused & Hclock & Htimers & Hphase) He.
  destruct e as [| | [|] | | | | | | | | | | | ms]; try done.
  - (* another deferred pause *)
    cbn [step]. unfold pause.
    cbn [_active this on_this set_paused]. rewrite Hactive. cbn [negb fst].
    unfold debounced. cbn.
    split; [done |]. split; [done |]. split; [done |]. split.
    { apply Forall_app. split; [done |]. repeat constructor. lia. }
    destruct Hphase as [(Hearly & Hintact & Hin) | (Hlate & Htorn)].
    + left. split; [done |]. split; [exact Hintact |]. apply in_or_app. by left.
    + right. split; [done |]. exact Htorn.
  - (* time passes *)
    cbn [step].
    destruct (elapse_frame ms w) as [Hthis Htasks].
    unfold debounced. rewrite Hthis, Htasks.
    cbn [advance on_tasks tasks clock timers set_timers set_clock].
    split; [done |]. split; [done |]. split; [lia |]. split.
    { by apply Forall_filter_keep. }
    destruct Hphase as [(Hearly & Hintact & Hin) | (Hlate & Htorn)].
    + destruct (Nat.lt_ge_cases (clock (tasks w) + ms) (t0 + PAUSE_DELAY)) as [Hstill | Hdue].
      * left. split; [done |].
        assert (Hidle : Forall (fun d => clock (tasks w) + ms < d) (timers (tasks w))).
        { eapply Forall_impl; [exact Htimers |]. intros d Hd. cbn beta in *. lia. }
        rewrite elapse_idle by done. split; [exact Hintact |].
        pose proof (advance_timers_idle ms w Hidle) as Hsame. cbn in Hsame.
        by rewrite Hsame.
      * right. split; [done |].
        eapply torn_down_transfer; [exact Hintact |].
        by eapply elapse_paused_due.
    + right. split; [lia |].
      rewrite elapse_no_stream by (by destruct Htorn). exact Htorn.
Qed.

Lemma run_debounced t0 w0 events w :
  debounced t0 w0 w -> Forall pause_or_wait events -> debounced t0 w0 (run P events w).
Proof.
  intros Hinv Hevents. revert w Hinv.
  induction Hevents as [| e events He _ IH]; intros w Hinv; [done |].
  rewrite run_cons. apply IH. by apply step_debounced.
Qed.

End Debounce.

(** C2, as the claim states it, fails: pauses at 0 ms and at 200 ms, and the
    stream is torn down at 300 ms, when the window of the first pause ends,
    while the window of the last pause (its timer is due at 500 ms) is still
    open. *)
Lemma repeated_pause_tears_down_at_first_window :
  let w := run phone [Call_pause false; Elapse 200; Call_pause false; Elapse 100] scanning in
  srcObject (video scanning) = Some 7 /\
  timers (tasks scanning) = [] /\
  clock (tasks w) = 300 /\
  timers (tasks w) = [500] /\
  _paused (this w) = true /\
  srcObject (video w) = None /\
  getTracks w 7 = [] /\
  1 ∈ stopped w.
Proof.
  cbv zeta. do 7 (split; [reflexivity |]). vm_compute. set_solver.
Qed.

Section DeferredTeardown.
Variable P : Platform.

Lemma resume_inside_window w a b :
  _active (this w) = true -> document_hidden w = false -> timers (tasks w) = [] ->
  is_Some (srcObject (video w)) -> a < PAUSE_DELAY ->
  let w' := run P [Call_pause false; Elapse a; Call_start; Elapse b] w in
  stream_intact w w' /\ paused (video w') = false /\
  _active (this w') = true /\ _paused (this w') = false.
Proof.
  intros Hactive Hvisible Htimers [stream Hsrc] Ha. cbv zeta.
  rewrite !run_cons. cbn [run foldl step].
  rewrite (pause_deferred_active w Hactive). cbn [fst].
  set (w1 := on_tasks _ _).
  assert (Hidle : Forall (fun d => clock (tasks w1) + a < d) (timers (tasks w1))).
  { subst w1. cbn. rewrite Htimers. repeat constructor. unfold PAUSE_DELAY in *. lia. }
  rewrite (elapse_idle a w1 Hidle).
  set (w2 := advance a w1).
  assert (Hstart : start w2 = play (on_this (set_paused false) (on_this (set_active true) w2))).
  { unfold start. subst w2 w1. cbn. by rewrite andb_false_r, Hvisible, Hsrc. }
  rewrite Hstart.
  rewrite elapse_unpaused by done.
  subst w2 w1. unfold stream_intact. cbn. done.
Qed.

(** C2 (amended).  When a timer set by [pause()] fires, the stream is torn
    down exactly if the paused flag is set at that moment, whichever call set
    it.  So under repeated deferred pauses of an active scanner, with nothing
    but time in between and no timer pending before the first of them, the
    stream stays untouched for 300 ms after the first pause and is torn down
    from then on; and a [start()] inside the window of a single pause keeps
    the stream for good. *)
Theorem deferred_teardown_at_first_window w :
  (forall ms d,
     In d (timers (tasks w)) -> d <= clock (tasks w) + ms ->
     if _paused (this w) then torn_down w (elapse ms w)
     else stream_intact w (elapse ms w)) /\
  (forall events,
     _active (this w) = true -> timers (tasks w) = [] ->
     Forall pause_or_wait events ->
     let w' := run P (Call_pause false :: events) w in
     (clock (tasks w') < clock (tasks w) + PAUSE_DELAY -> stream_intact w w') /\
     (clock (tasks w) + PAUSE_DELAY <= clock (tasks w') -> torn_down w w')) /\
  (forall a b,
     _active (this w) = true -> document_hidden w = false -> timers (tasks w) = [] ->
     is_Some (srcObject (video w)) -> a < PAUSE_DELAY ->
     let w' := run P [Call_pause false; Elapse a; Call_start; Elapse b] w in
     stream_intact w w' /\ paused (video w') = false /\
     _active (this w') = true /\ _paused (this w') = false).
Proof.
  split; [| split].
  - intros ms d Hin Hd. destruct (_paused (this w)) eqn:Hp.
    + by eapply elapse_paused_due.
    + by rewrite elapse_unpaused.
  - intros events Hactive Htimers Hevents w'.
    assert (Hinv : debounced (clock (tasks w)) w w').
    { subst w'. rewrite run_cons. apply run_debounced; [| done]. by apply pause_debounced. }
    destruct Hinv as (_ & _ & _ & _ & [(Hearly & Hintact & _) | (Hlate & Htorn)]).
    + split; [done | lia].
    + split; [lia | done].
  - intros a b. apply resume_inside_window.
Qed.

End DeferredTeardown.

Lemma deferred_teardown_at_first_window_witness :
  torn_down scanning
    (run phone [Call_pause false; Elapse 200; Call_pause false; Elapse 100] scanning).
Proof.
  destruct (deferred_teardown_at_first_window phone scanning) as (_ & Hrepeated & _).
  apply (Hrepeated [Elapse 200; Call_pause false; Elapse 100]).
  - reflexivity.
  - reflexivity.
  - repeat constructor.
  - vm_compute. lia.
Defined.

(** ** Switching the camera *)

Lemma start_paused_hidden w :
  _paused (this w) = true -> document_hidden w = true ->
  start w = on_this (set_active true) w.
Proof.
  intros Hp Hh. unfold start. rewrite Hp, andb_false_r. cbn [document_hidden on_this].
  by rewrite Hh.
Qed.

Lemma start_paused_no_stream w :
  _paused (this w) = true -> document_hidden w = false -> srcObject (video w) = None ->
  start w =
  on_tasks (fun t =>
      set_acquisitions (acquisitions t ++ [acquisition_for (_preferredCamera (this w))]) t)
    (on_this (set_paused false) (on_this (set_active true) w)).
Proof.
  intros Hp Hh Hsrc. unfold start. rewrite Hp, andb_false_r.
  cbn [document_hidden on_this video]. by rewrite Hh, Hsrc.
Qed.

Lemma start_paused_with_stream w stream :
  _paused (this w) = true -> document_hidden w = false ->
  srcObject (video w) = Some stream ->
  start w = play (on_this (set_paused false) (on_this (set_active true) w)).
Proof.
  intros Hp Hh Hsrc. unfold start. rewrite Hp, andb_false_r.
  cbn [document_hidden on_this video]. by rewrite Hh, Hsrc.
Qed.

(** [setCamera], case by case.  With the current preference it changes
    nothing at all.  With another preference it records the preference and
    sets the paused flag; on an inactive scanner that is all it does; on an
    active scanner the stream is torn down at once and, if the scanner was
    not paused, [start()] runs: on a visible page it clears the paused flag
    and leaves a camera request for the new preference pending. *)
Lemma setCamera_spec camera w :
  (camera = _preferredCamera (this w) -> setCamera camera w = w) /\
  (camera <> _preferredCamera (this w) ->
   let w' := setCamera camera w in
   _preferredCamera (this w') = camera /\
   (_active (this w) = false ->
      w' = on_this (fun s => set_paused true (set_preferredCamera camera s)) w) /\
   (_active (this w) = true ->
      torn_down w w' /\
      _active (this w') = true /\
      (_paused (this w) = true \/ document_hidden w = true ->
         _paused (this w') = true /\
         acquisitions (tasks w') = acquisitions (tasks w)) /\
      (_paused (this w) = false -> document_hidden w = false ->
         _paused (this w') = false /\
         acquisitions (tasks w') = acquisitions (tasks w) ++ [acquisition_for camera]))).
Proof.
  split.
  - intros ->. unfold setCamera. by rewrite String.eqb_refl.
  - intros Hne. cbv zeta. unfold setCamera.
    apply String.eqb_neq in Hne. rewrite Hne.
    set (w1 := on_this (set_preferredCamera camera) w).
    destruct (_active (this w)) eqn:Hactive.
    + rewrite (pause_immediate_active w1) by done.
      set (w2 := stopStream _).
      assert (Hframe : this w2 = set_paused true (set_preferredCamera camera (this w)) /\
                       video w2 = set_srcObject None (set_video_paused true (video w)) /\
                       document_hidden w2 = document_hidden w /\
                       tasks w2 = tasks w).
      { subst w2. by destruct (stopStream_frame (video_pause (on_this (set_paused true) w1)))
          as (-> & -> & -> & -> & _). }
      destruct Hframe as (Hthis2 & Hvideo2 & Hhidden2 & Htasks2).
      assert (Htorn2 : torn_down w w2).
      { eapply torn_down_transfer; [| apply stopStream_torn_down]. done. }
      unfold setCamera_then. cbn [negb orb _paused this on_this set_preferredCamera w1].
      rewrite Hthis2. cbn [_active set_paused set_preferredCamera]. rewrite Hactive.
      cbn [negb].
      destruct (_paused (this w)) eqn:Hpaused; cbn [orb].
      * split; [by rewrite Hthis2 |]. split; [done |]. intros _.
        split; [exact Htorn2 |]. rewrite Hthis2, Htasks2. cbn. rewrite Hactive.
        split; [done |]. split; done.
      * assert (Hp2 : _paused (this w2) = true) by (by rewrite Hthis2).
        assert (Hsrc2 : srcObject (video w2) = None) by (by rewrite Hvideo2).
        destruct (document_hidden w) eqn:Hhidden.
        -- rewrite start_paused_hidden by congruence.
           cbn [this on_this tasks]. rewrite Hthis2, Htasks2.
           split; [done |]. split; [done |]. intros _.
           split; [exact Htorn2 |]. split; [done |]. split; done.
        -- rewrite start_paused_no_stream by congruence.
           cbn [this on_this on_tasks tasks acquisitions set_acquisitions].
           rewrite Hthis2, Htasks2.
           split; [done |]. split; [done |]. intros _.
           split; [exact Htorn2 |]. split; [done |]. split; [by intros [|] |]. done.
    + rewrite (pause_inactive true w1) by done.
      unfold setCamera_then. cbn. rewrite Hactive. cbn. rewrite orb_true_r.
      repeat split; try done.
Qed.

(** C9, where the code departs from the claim.  A scanner that shows its
    camera is stopped, and within the 300 ms before the stream goes
    [setCamera] is called with another preference and then [start()].
    [setCamera] finds the scanner inactive, so its [pause(true)] returns
    before it reaches the stream, and [start()] finds the stream still in
    place and plays it.  From then on the scanner is active under the new
    preference and shows the stream of the old one: the stream and its
    tracks are as before [stop()], no camera was asked for, and the timer of
    [stop()] finds the scanner unpaused and does nothing. *)
Theorem setCamera_after_stop_keeps_old_stream P w camera stream a b :
  _active (this w) = true ->
  _paused (this w) = false ->
  document_hidden w = false ->
  timers (tasks w) = [] ->
  srcObject (video w) = Some stream ->
  camera <> _preferredCamera (this w) ->
  a < PAUSE_DELAY ->
  let w' := run P [Call_stop; Elapse a; Call_setCamera camera; Call_start; Elapse b] w in
  _active (this w') = true /\
  _paused (this w') = false /\
  _preferredCamera (this w') = camera /\
  stream_intact w w' /\
  paused (video w') = false /\
  acquisitions (tasks w') = acquisitions (tasks w) /\
  camera_requests (tasks w') = camera_requests (tasks w) /\
  trace w' = trace w.
Proof.
  intros Hactive Hpaused Hvisible Htimers Hsrc Hcamera Ha w'.
  set (w1 := stop w).
  assert (E1 : w1 =
    on_this (set_active false)
      (on_tasks (fun t => set_timers (timers t ++ [clock t + PAUSE_DELAY]) t)
         (video_pause (on_this (set_paused true) w)))).
  { unfold w1, stop. by rewrite pause_deferred_active. }
  set (w2 := elapse a w1).
  assert (E2 : w2 = advance a w1).
  { unfold w2. apply elapse_idle. rewrite E1. cbn. rewrite Htimers.
    repeat constructor. lia. }
  set (w3 := setCamera camera w2).
  assert (E3 : w3 = on_this (fun s => set_paused true (set_preferredCamera camera s)) w2).
  { unfold w3. destruct (setCamera_spec camera w2) as [_ Hother].
    apply Hother.
    - by rewrite E2, E1.
    - by rewrite E2, E1. }
  set (w4 := start w3).
  assert (E4 : w4 = play (on_this (set_paused false) (on_this (set_active true) w3))).
  { unfold w4. apply (start_paused_with_stream w3 stream).
    - by rewrite E3.
    - by rewrite E3, E2, E1.
    - by rewrite E3, E2, E1. }
  assert (E5 : w' = advance b w4).
  { subst w'. unfold run. cbn [foldl step]. fold w1 w2 w3 w4.
    apply elapse_unpaused. by rewrite E4. }
  rewrite E5, E4, E3, E2, E1. unfold stream_intact.
  cbn. rewrite Hsrc. done.
Qed.

Lemma setCamera_after_stop_keeps_old_stream_witness :
  let w' := run phone [Call_stop; Elapse 100; Call_setCamera "user"; Call_start;
                       Elapse 1000] scanning in
  _active (this w') = true /\
  _preferredCamera (this w') = "user" /\
  srcObject (video w') = Some 7 /\
  getTracks w' 7 = [back_track] /\
  paused (video w') = false /\
  acquisitions (tasks w') = [].
Proof.
  cbv zeta.
  destruct (setCamera_after_stop_keeps_old_stream phone scanning "user" 7 100 1000)
    as (Hactive & _ & Hcamera & (Hsrc & Hattached & _) & Hplaying & Hpending & _).
  - reflexivity.
  - reflexivity.
  - reflexivity.
  - reflexivity.
  - reflexivity.
  - vm_compute. discriminate.
  - vm_compute. lia.
  - split; [exact Hactive |]. split; [exact Hcamera |]. split; [exact Hsrc |].
    split; [unfold getTracks; rewrite Hattached; reflexivity |].
    split; [exact Hplaying | exact Hpending].
Defined.

(** ** The scan loop *)

(** C3, where the code departs from the claim: [stop()] while a round-trip is
    in flight, then the round-trip resolves with a payload, and the decode
    handler is called on the stopped scanner. *)
Lemma stale_success_reaches_handler :
  let stopped_scanner := run phone [Call_stop] decoding in
  let w := run phone [ScanSettled (Ok "ABC123")] stopped_scanner in
  inflight (tasks decoding) = 1 /\
  _active (this stopped_scanner) = false /\
  trace w = trace stopped_scanner ++ [OnDecode "ABC123"] /\
  animation_requests (tasks w) = 0.
Proof. cbv zeta. repeat split; reflexivity. Qed.

(** C3.  On a scanner that is no longer active, a round-trip that rejects is
    dropped: the decode-error handler is not called and no cycle is
    scheduled.  A round-trip that resolves still reaches the decode handler,
    which the first callback of [.then(this._onDecode, ...)] calls without
    looking at the active flag; no cycle is scheduled after it either. *)
Theorem settled_after_stop r w :
  _active (this w) = false ->
  _scanFrame_settled r w =
    match r with
    | Ok payload => observe (OnDecode payload) w
    | Err _ => w
    end.
Proof.
  intros Hactive. unfold _scanFrame_settled, _scanFrame.
  destruct r as [payload | error]; cbn [this observe];
    rewrite !Hactive; cbn [negb orb]; by rewrite ?Hactive.
Qed.

Lemma settled_after_stop_witness :
  _scanFrame_settled (Ok "ABC123") (stop decoding)
  = observe (OnDecode "ABC123") (stop decoding).
Proof. apply (settled_after_stop (Ok "ABC123") (stop decoding)). reflexivity. Defined.

(** C4, as the claim states it, fails: the scanner is active but paused when
    the round-trip comes back with nothing found; the error handler is called
    and the loop ends there, with no animation frame requested. *)
Lemma not_found_while_paused_ends_loop :
  let w := run phone [Call_pause false; ScanSettled (Err NO_QR_CODE_FOUND)] decoding in
  _active (this w) = true /\
  trace w = trace decoding ++ [OnDecodeError NO_QR_CODE_FOUND] /\
  animation_requests (tasks w) = 0 /\
  inflight (tasks w) = 0.
Proof. cbv zeta. repeat split; reflexivity. Qed.

(** C4 (amended).  A round-trip that ends in "not found" never calls the
    decode handler.  On an active scanner it calls the decode-error handler
    with that error, keeps the engine, and requests the next animation frame
    exactly if the video is neither paused nor ended; on an inactive scanner
    it does nothing. *)
Theorem not_found_cycle w :
  let w' := _scanFrame_settled (Err NO_QR_CODE_FOUND) w in
  this w' = this w /\
  video w' = video w /\
  trace w' =
    trace w ++ (if _active (this w) then [OnDecodeError NO_QR_CODE_FOUND] else []) /\
  animation_requests (tasks w') =
    animation_requests (tasks w)
    + (if _active (this w) && negb (paused (video w)) && negb (ended (video w))
       then 1 else 0) /\
  inflight (tasks w') = inflight (tasks w).
Proof.
  cbv zeta. unfold _scanFrame_settled, _scanFrame.
  change (includes "service unavailable" NO_QR_CODE_FOUND) with false. cbv iota.
  destruct (_active (this w)) eqn:Hactive; cbn [negb this observe video];
    rewrite Hactive; cbn [negb orb andb].
  - destruct (paused (video w)), (ended (video w)); cbn; repeat split; try done; lia.
  - rewrite app_nil_r. repeat split; try done; lia.
Qed.

(** The default decode-error handler is silent about "not found". *)
Lemma onDecodeError_not_found : _onDecodeError NO_QR_CODE_FOUND = None.
Proof. reflexivity. Qed.

(** ** Torch control *)

(** C10, as the claim states it, fails in two ways.  On a new scanner
    [turnFlashOff()] finds no video track: it rejects with 'Camera not
    started or not available', not with 'No flash available', and the flag,
    false before the call, is true after it.  After [start()], while the
    camera request is pending, [turnFlashOn()] rejects with that same
    error. *)
Lemma flash_without_track :
  let new := constructor "environment" false in
  let starting := run phone [Call_start] new in
  video_track new = None /\
  _flashOn (this new) = false /\
  snd (turnFlashOff phone new) = Some (Err CAMERA_NOT_STARTED) /\
  _flashOn (this (fst (turnFlashOff phone new))) = true /\
  _active (this starting) = true /\
  _paused (this starting) = false /\
  video_track starting = None /\
  snd (turnFlashOn phone starting) = Some (Err CAMERA_NOT_STARTED) /\
  CAMERA_NOT_STARTED <> NO_FLASH_AVAILABLE.
Proof. cbv zeta. repeat split; try reflexivity. discriminate. Qed.

Section Torch.
Variable P : Platform.

Lemma setFlash_deferred w on :
  flash_deferred on w = true ->
  _setFlash P on w = (on_this (set_flashOn on) w, Some (Ok tt)).
Proof.
  unfold flash_deferred, _setFlash. cbn [_active _paused this on_this set_flashOn].
  by intros ->.
Qed.

Lemma video_track_set_flashOn on w :
  video_track (on_this (set_flashOn on) w) = video_track w.
Proof. reflexivity. Qed.

Lemma setFlash_not_deferred w on :
  flash_deferred on w = false ->
  _setFlash P on w =
    if negb (imageCapture P)
    then (on_this (set_flashOn (negb on)) w, Some (Err NO_FLASH_AVAILABLE))
    else
      match video_track w with
      | None => (on_this (set_flashOn (negb on)) w, Some (Err CAMERA_NOT_STARTED))
      | Some track => (push_flash_request on track (on_this (set_flashOn on) w), None)
      end.
Proof.
  unfold flash_deferred, _setFlash, hasFlash.
  cbn [_active _paused this on_this set_flashOn]. intros ->.
  rewrite video_track_set_flashOn.
  destruct (imageCapture P); cbn [negb]; [| done].
  by destruct (video_track w).
Qed.

Lemma setFlash_settled_spec on track v :
  _setFlash_settled P on (hasFlash_settled P track) v =
    if negb (torch_capable P track)
    then (on_this (set_flashOn (negb on)) v, Err NO_FLASH_AVAILABLE)
    else
      match video_track v with
      | None => (on_this (set_flashOn (negb on)) v, Err TYPE_ERROR)
      | Some current =>
          match applyConstraints P current on with
          | None => (observe (ApplyTorch (track_id current) on) v, Ok tt)
          | Some e =>
              (on_this (set_flashOn (negb on)) (observe (ApplyTorch (track_id current) on) v),
               Err e)
          end
      end.
Proof.
  unfold _setFlash_settled, hasFlash_settled, torch_capable, _setFlash_then.
  destruct (getPhotoCapabilities P track) as [fillLightMode |]; cbn [negb]; [| done].
  destruct (existsb (String.eqb "flash") fillLightMode); cbn [negb]; [| done].
  destruct (video_track v) as [current |]; [| done].
  by destruct (applyConstraints P current on).
Qed.

Lemma start_then_flash stream facingModeGuess track w :
  _flashOn (this w) = true -> _active (this w) = true -> _paused (this w) = false ->
  imageCapture P = true ->
  first_video_track (stream_tracks stream) = Some track ->
  let w' := start_then P stream facingModeGuess w in
  srcObject (video w') = Some (stream_id stream) /\
  video_track w' = Some track /\
  _flashOn (this w') = true /\
  flash_requests (tasks w') =
    flash_requests (tasks w) ++ [{| flash_on := true; flash_track := track |}].
Proof.
  intros Hflash Hactive Hpaused Hcapture Htrack. cbv zeta. unfold start_then.
  set (mode := match _getFacingMode stream with Some m => m | None => _ end).
  set (w1 := _setVideoMirror mode _).
  assert (Hvt : video_track w1 = Some track).
  { subst w1. unfold video_track, getTracks. cbn. by rewrite lookup_insert_eq. }
  assert (Hf1 : _flashOn (this w1) = true) by done.
  rewrite Hf1. unfold turnFlashOn.
  rewrite setFlash_not_deferred.
  2:{ unfold flash_deferred. subst w1. cbn. by rewrite Hactive, Hpaused. }
  rewrite Hcapture, Hvt. cbn [negb fst].
  split; [done |]. split; [exact Hvt |]. split; done.
Qed.

(** C10 (amended).  [_setFlash(on)] records the requested flag.  Asked to
    turn the torch on while the scanner is inactive or paused it resolves at
    once and does nothing else.  Otherwise it rejects with 'No flash
    available' when the browser has no [ImageCapture] or the capabilities of
    the video track do not name the flash; it rejects with 'Camera not
    started or not available' when there is no video track.  Every rejection
    leaves the flag at the opposite of what was asked, which for a request
    that asked for a change is the value before the call.  When [start()]
    gets its stream on an active, unpaused scanner whose flag is set, it
    asks for the torch on the video track of that stream, and a capable
    track then has the torch constraint applied. *)
Theorem setFlash_spec on w :
  (flash_deferred on w = true ->
     _setFlash P on w = (on_this (set_flashOn on) w, Some (Ok tt))) /\
  (flash_deferred on w = false ->
     (imageCapture P = false ->
        snd (_setFlash P on w) = Some (Err NO_FLASH_AVAILABLE)) /\
     (imageCapture P = true -> video_track w = None ->
        snd (_setFlash P on w) = Some (Err CAMERA_NOT_STARTED)) /\
     (forall track, imageCapture P = true -> video_track w = Some track ->
        _setFlash P on w = (push_flash_request on track (on_this (set_flashOn on) w), None)) /\
     (forall e, snd (_setFlash P on w) = Some (Err e) ->
        _flashOn (this (fst (_setFlash P on w))) = negb on /\
        (on = negb (_flashOn (this w)) ->
           _flashOn (this (fst (_setFlash P on w))) = _flashOn (this w)))) /\
  (forall track v,
     let settled := _setFlash_settled P on (hasFlash_settled P track) v in
     (torch_capable P track = false -> snd settled = Err NO_FLASH_AVAILABLE) /\
     (forall e, snd settled = Err e -> _flashOn (this (fst settled)) = negb on) /\
     (torch_capable P track = true -> video_track v = Some track ->
      applyConstraints P track on = None ->
        settled = (observe (ApplyTorch (track_id track) on) v, Ok tt))) /\
  (forall stream facingModeGuess track,
     _flashOn (this w) = true -> _active (this w) = true -> _paused (this w) = false ->
     imageCapture P = true ->
     first_video_track (stream_tracks stream) = Some track ->
     let w' := start_then P stream facingModeGuess w in
     video_track w' = Some track /\
     flash_requests (tasks w') =
       flash_requests (tasks w) ++ [{| flash_on := true; flash_track := track |}]).
Proof.
  split; [apply setFlash_deferred |]. split; [| split].
  - intros Hnow. rewrite (setFlash_not_deferred w on Hnow).
    split; [by intros -> |]. split; [by intros -> -> |]. split; [by intros track -> -> |].
    intros e. destruct (imageCapture P); cbn [negb].
    + destruct (video_track w); [done |]. cbn. intros _. split; [done |].
      intros ->. by rewrite negb_involutive.
    + cbn. intros _. split; [done |]. intros ->. by rewrite negb_involutive.
  - intros track v settled. subst settled. rewrite setFlash_settled_spec.
    split; [by intros -> |]. split.
    + intros e. destruct (torch_capable P track); cbn [negb]; [| done].
      destruct (video_track v) as [current |]; [| done].
      by destruct (applyConstraints P current on).
    + by intros -> -> ->.
  - intros stream facingModeGuess track Hflash Hactive Hpaused Hcapture Htrack.
    by destruct (start_then_flash stream facingModeGuess track w) as (_ & ? & _ & ?).
Qed.

End Torch.

(** A toggle that is rejected at once leaves the flag as it was. *)
Lemma toggleFlash_rejected_keeps_flag P w e :
  snd (toggleFlash P w) = Some (Err e) ->
  _flashOn (this (fst (toggleFlash P w))) = _flashOn (this w).
Proof.
  unfold toggleFlash.
  destruct (flash_deferred (negb (_flashOn (this w))) w) eqn:Hdeferred.
  - by rewrite setFlash_deferred.
  - rewrite setFlash_not_deferred by done.
    destruct (imageCapture P); cbn [negb].
    + destruct (video_track w); [done |]. cbn. intros _. apply negb_involutive.
    + cbn. intros _. apply negb_involutive.
Qed.

Lemma setFlash_spec_witness :
  _setFlash phone true (constructor "environment" false)
  = (on_this (set_flashOn true) (constructor "environment" false), Some (Ok tt)).
Proof. apply (setFlash_spec phone true (constructor "environment" false)). reflexivity. Defined.

(** The torch asked for before [start()] is applied once the camera has
    come. *)
Lemma flash_follows_start :
  let w := run phone [Call_turnFlashOn; Call_start; CameraSettled; FlashProbeSettled]
             (constructor "environment" false) in
  _flashOn (this w) = true /\
  In (ApplyTorch 1 true) (trace w).
Proof. cbv zeta. split; [reflexivity |]. vm_compute. tauto. Qed.

(** * Further properties *)

(** ** Starting and stopping *)

(** X1.  [start()] called again right after [start()] changes nothing: in
    particular it leaves no second camera request behind. *)
Theorem start_idempotent w : start (start w) = start w.
Proof.
  destruct (_active (this w)) eqn:Ha, (_paused (this w)) eqn:Hp,
    (document_hidden w) eqn:Hh, (srcObject (video w)) eqn:Hs;
    unfold start; cbn; rewrite ?Ha, ?Hp, ?Hh, ?Hs; cbn;
    rewrite ?Ha, ?Hp, ?Hh, ?Hs; done.
Qed.

(** X2.  [start()] on a hidden page marks the scanner active and asks for no
    camera.  When the page becomes visible the camera is asked for if the
    scanner had been paused before, as the visibility handler does when a
    page is hidden; on a scanner that had never been paused the second
    [start()] returns at once, and the active scanner stays without a
    camera. *)
Theorem start_on_hidden_page P w :
  document_hidden w = true ->
  let w1 := start w in
  let w2 := step P (VisibilityChange false) w1 in
  _active (this w1) = true /\
  _paused (this w1) = _paused (this w) /\
  video w1 = video w /\
  acquisitions (tasks w1) = acquisitions (tasks w) /\
  (_paused (this w) = false ->
     _active (this w2) = true /\
     video w2 = video w /\
     acquisitions (tasks w2) = acquisitions (tasks w)) /\
  (_paused (this w) = true -> srcObject (video w) = None ->
     _paused (this w2) = false /\
     acquisitions (tasks w2) =
       acquisitions (tasks w) ++ [acquisition_for (_preferredCamera (this w))]).
Proof.
  intros Hh. cbv zeta. cbn [step]. unfold _onVisibilityChange.
  cbn [document_hidden set_document_hidden this].
  destruct (_active (this w)) eqn:Ha, (_paused (this w)) eqn:Hp;
    unfold start; cbn; rewrite ?Ha, ?Hp, ?Hh; cbn; rewrite ?Ha, ?Hp; cbn;
    repeat split; try done; try (intros _ Hs; rewrite ?Hs; cbn; done);
    try (intros Hs; rewrite ?Hs; cbn; done);
    match goal with Hs : srcObject _ = None |- _ => by rewrite Hs end.
Qed.

Lemma start_on_hidden_page_witness :
  acquisitions
    (tasks (step phone (VisibilityChange false) (start (constructor "environment" true))))
  = [].
Proof.
  apply (start_on_hidden_page phone (constructor "environment" true)); reflexivity.
Defined.

Lemma observe_requests sent w :
  let w' := foldl (fun w c => observe (GetUserMedia c) w) w sent in
  trace w' = trace w ++ map GetUserMedia sent /\
  this w' = this w /\ video w' = video w /\ tasks w' = tasks w /\
  attached w' = attached w /\ stopped w' = stopped w /\
  document_hidden w' = document_hidden w.
Proof.
  cbv zeta. revert w. induction sent as [| c sent IH]; intros w.
  - cbn. by rewrite app_nil_r.
  - cbn [foldl map]. destruct (IH (observe (GetUserMedia c) w))
      as (-> & -> & -> & -> & -> & -> & ->).
    cbn. by rewrite <- app_assoc.
Qed.

Lemma getMatchingCameraStream_all_fail P getUserMedia constraints n :
  mediaDevices P = Some getUserMedia ->
  (forall k c, getUserMedia k c = None) ->
  _getMatchingCameraStream P constraints n = (constraints, Err CAMERA_NOT_FOUND).
Proof.
  intros Hmd Hfail. revert n.
  induction constraints as [| c rest IH]; intros n; cbn; rewrite Hmd; [done |].
  by rewrite Hfail, IH.
Qed.

Lemma constraintsToTry_length preferredCamera exact :
  length (constraintsToTry preferredCamera exact) = 3.
Proof.
  unfold constraintsToTry. destruct preferredCamera as [camera |]; [| done].
  by destruct (truthy_str camera).
Qed.

(** X3.  A [start()] whose camera requests all fail has made six of them,
    the three of the width ladder with the exact preference and then the
    three without any, before it gives up: the scanner is inactive again and
    the promise rejects with 'Camera not found.'.  Without
    [navigator.mediaDevices] it gives up without a request. *)
Theorem start_gives_up P w a rest :
  acquisitions (tasks w) = a :: rest ->
  let w' := step P CameraSettled w in
  ((exists getUserMedia,
      mediaDevices P = Some getUserMedia /\ forall k c, getUserMedia k c = None) ->
   trace w' =
     trace w
     ++ map GetUserMedia (constraintsToTry (Some (acq_camera a)) true ++ width_ladder)
     ++ [StartRejected CAMERA_NOT_FOUND] /\
   camera_requests (tasks w') = camera_requests (tasks w) + 6) /\
  (mediaDevices P = None ->
   trace w' = trace w ++ [StartRejected CAMERA_NOT_FOUND] /\
   camera_requests (tasks w') = camera_requests (tasks w)) /\
  ((mediaDevices P = None \/
    exists getUserMedia,
      mediaDevices P = Some getUserMedia /\ forall k c, getUserMedia k c = None) ->
   _active (this w') = false /\
   video w' = video w /\
   stream_intact w w' /\
   acquisitions (tasks w') = rest).
Proof.
  intros Hpending. cbv zeta. cbn [step]. rewrite Hpending.
  set (w0 := on_tasks (set_acquisitions rest) w).
  assert (Hfail : (exists getUserMedia,
      mediaDevices P = Some getUserMedia /\ forall k c, getUserMedia k c = None) ->
    start_settled P a w0 =
      start_catch CAMERA_NOT_FOUND
        (foldl (fun w c => observe (GetUserMedia c) w)
           (on_tasks (set_camera_requests (camera_requests (tasks w) + 6)) w0)
           (constraintsToTry (Some (acq_camera a)) true ++ width_ladder))).
  { intros (getUserMedia & Hmd & Hnone). unfold start_settled, _getCameraStream.
    rewrite !(getMatchingCameraStream_all_fail P getUserMedia) by done.
    cbv beta iota zeta. change (constraintsToTry None false) with width_ladder.
    rewrite length_app, constraintsToTry_length. done. }
  assert (Hnone : mediaDevices P = None ->
    start_settled P a w0 =
      start_catch CAMERA_NOT_FOUND
        (on_tasks (set_camera_requests (camera_requests (tasks w) + 0)) w0)).
  { intros Hmd. unfold start_settled, _getCameraStream.
    rewrite !getMatchingCameraStream_no_subsystem by done. done. }
  split; [| split].
  - intros Hall. rewrite (Hfail Hall). unfold start_catch.
    destruct (observe_requests
      (constraintsToTry (Some (acq_camera a)) true ++ width_ladder)
      (on_tasks (set_camera_requests (camera_requests (tasks w) + 6)) w0))
      as (Htrace & _ & _ & Htasks & _).
    cbn [trace observe on_this tasks]. rewrite Htrace, Htasks. cbn.
    by rewrite <- app_assoc.
  - intros Hmd. rewrite (Hnone Hmd). cbn. by rewrite Nat.add_0_r.
  - intros [Hmd | Hall].
    + rewrite (Hnone Hmd). by cbn.
    + rewrite (Hfail Hall). unfold start_catch.
      destruct (observe_requests
        (constraintsToTry (Some (acq_camera a)) true ++ width_ladder)
        (on_tasks (set_camera_requests (camera_requests (tasks w) + 6)) w0))
        as (_ & Hthis & Hvideo & Htasks & Hattached & Hstopped & _).
      unfold stream_intact.
      cbn [this video tasks attached stopped observe on_this _active set_active].
      by rewrite Hvideo, Htasks, Hattached, Hstopped.
Qed.

Lemma start_gives_up_witness :
  _active (this (run refused [Call_start; CameraSettled] (constructor "user" false)))
  = false.
Proof.
  apply (start_gives_up refused (start (constructor "user" false))
           (acquisition_for "user") []).
  - reflexivity.
  - right. eexists. split; [reflexivity | done].
Defined.

(** X4.  When the first camera request of a pending [start()] is granted,
    nothing more is requested and the stream becomes the video's source with
    its tracks attached and the video playing, mirrored exactly if the facing
    mode settled on is 'user'.  The callback does not look at the scanner's
    flags: they are left as they are, also on a scanner that was stopped in
    the meantime. *)
Theorem camera_granted_at_first_request P w a rest getUserMedia c stream :
  acquisitions (tasks w) = a :: rest ->
  mediaDevices P = Some getUserMedia ->
  constraintsToTry (Some (acq_camera a)) true !! 0 = Some c ->
  getUserMedia (camera_requests (tasks w)) c = Some stream ->
  _flashOn (this w) = false ->
  let w' := step P CameraSettled w in
  this w' = this w /\
  srcObject (video w') = Some (stream_id stream) /\
  getTracks w' (stream_id stream) = stream_tracks stream /\
  paused (video w') = false /\
  transform (video w') =
    (if String.eqb (settled_facing_mode stream (acq_facingModeGuess a)) "user"
     then "scaleX(-1)" else "scaleX(1)")%string /\
  stopped w' = stopped w /\
  trace w' = trace w ++ [GetUserMedia c] /\
  camera_requests (tasks w') = camera_requests (tasks w) + 1 /\
  acquisitions (tasks w') = rest.
Proof.
  intros Hpending Hmd Hc Hgranted Hflash. cbv zeta. cbn [step]. rewrite Hpending.
  unfold start_settled, _getCameraStream. cbn [tasks on_tasks camera_requests set_acquisitions].
  destruct (constraintsToTry (Some (acq_camera a)) true) as [| c0 others] eqn:Hcs;
    [done |]. injection Hc as ->.
  cbn [_getMatchingCameraStream]. rewrite Hmd, Hgranted.
  cbn [length foldl]. unfold start_then.
  cbn [this observe on_tasks on_video set_attached play _setVideoMirror _flashOn].
  rewrite Hflash.
  unfold getTracks. cbn. rewrite lookup_insert_eq. cbn.
  change (match _getFacingMode stream with
          | Some mode => mode
          | None => match acq_facingModeGuess a with Some g => g | None => "environment"%string end
          end) with (settled_facing_mode stream (acq_facingModeGuess a)).
  destruct (String.eqb (settled_facing_mode stream (acq_facingModeGuess a)) "user");
    repeat split; done.
Qed.

Lemma camera_granted_at_first_request_witness :
  srcObject (video (step phone CameraSettled (start (constructor "environment" false))))
  = Some 7.
Proof.
  apply (camera_granted_at_first_request phone (start (constructor "environment" false))
           (acquisition_for "environment") [] (fun _ _ => Some back_camera)
           {| min_width := Some 1024%Z; facingMode := Some (Exact "environment");
              deviceId := None |} back_camera); reflexivity.
Defined.

Lemma setCamera_inactive camera w :
  _active (this w) = false ->
  setCamera camera w = w \/
  setCamera camera w = on_this (fun s => set_paused true (set_preferredCamera camera s)) w.
Proof.
  intros Ha. unfold setCamera.
  destruct (String.eqb camera (_preferredCamera (this w))); [by left |]. right.
  rewrite pause_inactive by done. unfold setCamera_then. cbn. rewrite Ha. cbn.
  by rewrite orb_true_r.
Qed.

Lemma idle_step_inactive P e w :
  _active (this w) = false -> timers (tasks w) = [] -> idle_event e ->
  let w' := step P e w in
  _active (this w') = false /\ timers (tasks w') = [] /\
  video w' = video w /\ attached w' = attached w /\ stopped w' = stopped w /\
  trace w' = trace w.
Proof.
  intros Ha Ht He. cbv zeta.
  destruct e as [| | b | camera | | | | hidden | | | | | | ms]; try done; cbn [step].
  - unfold stop. rewrite pause_inactive by done. done.
  - rewrite pause_inactive by done. done.
  - destruct (setCamera_inactive camera w Ha) as [-> | ->]; done.
  - unfold _onVisibilityChange. cbn [document_hidden set_document_hidden this].
    destruct hidden.
    + rewrite pause_inactive by done. done.
    + by rewrite Ha.
  - unfold elapse. rewrite Ht. cbn [List.filter fire_timers].
    unfold advance. rewrite Ht. done.
Qed.

(** X5.  On an inactive scanner with no timer pending, neither [stop()] nor
    [pause()] nor [setCamera()] nor the page changing visibility nor time ever
    touches the stream: whatever stream the video holds stays attached and
    running until [start()] is called. *)
Theorem inactive_scanner_keeps_stream P w events :
  _active (this w) = false ->
  timers (tasks w) = [] ->
  Forall idle_event events ->
  let w' := run P events w in
  stream_intact w w' /\
  video w' = video w /\
  _active (this w') = false /\
  trace w' = trace w.
Proof.
  intros Ha Ht Hevents. cbv zeta. revert w Ha Ht.
  induction Hevents as [| e events He _ IH]; intros w Ha Ht; [done |].
  rewrite run_cons.
  destruct (idle_step_inactive P e w Ha Ht He) as (Ha' & Ht' & Hv & Hatt & Hst & Htr).
  destruct (IH (step P e w) Ha' Ht') as ((Hsrc & Hatt2 & Hst2) & Hv2 & Ha2 & Htr2).
  unfold stream_intact. rewrite Hsrc, Hatt2, Hst2, Hv2, Htr2. rewrite Hv, Hatt, Hst, Htr.
  done.
Qed.

Lemma inactive_scanner_keeps_stream_witness :
  srcObject (video (run phone [Call_stop; Elapse 1000; Call_pause true] late_camera))
  = Some 7.
Proof.
  destruct (inactive_scanner_keeps_stream phone late_camera
              [Call_stop; Elapse 1000; Call_pause true]) as ((Hsrc & _) & _).
  - reflexivity.
  - reflexivity.
  - repeat constructor.
  - rewrite Hsrc. reflexivity.
Defined.

(** X6.  [stop()] twice is [stop()] once: the second call sets no timer and
    touches neither the video nor the stream. *)
Theorem stop_idempotent w : stop (stop w) = stop w.
Proof.
  assert (Hinactive : forall v, _active (this v) = false ->
            stop v = on_this (fun s => set_active false (set_paused true s)) v).
  { intros v Hv. unfold stop. by rewrite pause_inactive. }
  rewrite (Hinactive (stop w)) by reflexivity.
  unfold stop. destruct (_active (this w)) eqn:Ha.
  - by rewrite pause_deferred_active.
  - by rewrite pause_inactive.
Qed.

(** X7.  [pause(true)] on an active scanner pauses the video and tears the
    stream down before it returns, with a promise already resolved with
    true; it sets no timer and leaves the active flag alone.  On an inactive
    scanner it only sets the paused flag. *)
Theorem pause_immediately w :
  snd (pause true w) = Some true /\
  _active (this (fst (pause true w))) = _active (this w) /\
  _paused (this (fst (pause true w))) = true /\
  tasks (fst (pause true w)) = tasks w /\
  (_active (this w) = true ->
     paused (video (fst (pause true w))) = true /\
     torn_down w (fst (pause true w))) /\
  (_active (this w) = false ->
     fst (pause true w) = on_this (set_paused true) w).
Proof.
  destruct (_active (this w)) eqn:Ha.
  - rewrite pause_immediate_active by done. cbn [fst snd].
    destruct (stopStream_frame (video_pause (on_this (set_paused true) w)))
      as (Hthis & Hvideo & _ & Htasks & _).
    rewrite Hthis, Hvideo, Htasks. cbn.
    do 4 (split; [done |]). split; [| done]. intros _. split; [done |].
    eapply torn_down_transfer; [| apply stopStream_torn_down]. done.
  - rewrite pause_inactive by done. cbn. by rewrite Ha.
Qed.

Lemma pause_immediately_witness :
  torn_down scanning (fst (pause true scanning)).
Proof. apply (pause_immediately scanning). reflexivity. Defined.

(** ** The scan loop over time *)

Lemma run_app P events1 events2 w :
  run P (events1 ++ events2) w = run P events2 (run P events1 w).
Proof. unfold run. apply foldl_app. Qed.

Lemma scanFrame_bound w :
  this (_scanFrame w) = this w /\ video (_scanFrame w) = video w /\
  document_hidden (_scanFrame w) = document_hidden w /\
  trace (_scanFrame w) = trace w /\
  inflight (tasks (_scanFrame w)) = inflight (tasks w) /\
  animation_requests (tasks (_scanFrame w)) =
    animation_requests (tasks w)
    + (if negb (_active (this w)) || paused (video w) || ended (video w) then 0 else 1).
Proof.
  unfold _scanFrame.
  destruct (negb (_active (this w)) || paused (video w) || ended (video w)); cbn;
    repeat split; lia.
Qed.

Lemma scanFrame_frame_bound readyState w :
  let w' := _scanFrame_frame readyState w in
  this w' = this w /\ video w' = video w /\
  document_hidden w' = document_hidden w /\ trace w' = trace w /\
  cycles w' <= cycles w + 1.
Proof.
  cbv zeta. unfold _scanFrame_frame, cycles. destruct (readyState <=? 1).
  - destruct (scanFrame_bound w) as (-> & -> & -> & -> & -> & ->).
    repeat split. destruct (negb _ || _ || _); lia.
  - cbn. repeat split. lia.
Qed.

Lemma frames_bound readyState n w :
  let w' := Nat.iter n (_scanFrame_frame readyState) w in
  this w' = this w /\ video w' = video w /\
  document_hidden w' = document_hidden w /\ trace w' = trace w /\
  cycles w' <= cycles w + n.
Proof.
  cbv zeta. induction n as [| n IH]; [cbn [Nat.iter nat_rect] | rewrite Nat.iter_succ].
  - repeat split. lia.
  - destruct IH as (IHthis & IHvideo & IHhidden & IHtrace & IHcycles).
    destruct (scanFrame_frame_bound readyState (Nat.iter n (_scanFrame_frame readyState) w))
      as (-> & -> & -> & -> & Hcycles).
    repeat split; try done. lia.
Qed.

Lemma animation_frame_bound readyState w :
  let w' := animation_frame readyState w in
  this w' = this w /\ video w' = video w /\
  document_hidden w' = document_hidden w /\ trace w' = trace w /\
  cycles w' <= cycles w.
Proof.
  cbv zeta. unfold animation_frame. destruct (document_hidden w) eqn:Hh; [done |].
  destruct (frames_bound readyState (animation_requests (tasks w))
              (on_tasks (set_animation_requests 0) w))
    as (-> & -> & -> & -> & Hcycles).
  repeat split; try done. unfold cycles in *. cbn in Hcycles. lia.
Qed.

Lemma scanFrame_settled_frame r w :
  let w' := _scanFrame_settled r w in
  _active (this w') = _active (this w) /\ video w' = video w /\
  document_hidden w' = document_hidden w /\
  inflight (tasks w') = inflight (tasks w) /\
  animation_requests (tasks w') <= animation_requests (tasks w) + 1.
Proof.
  cbv zeta. unfold _scanFrame_settled.
  set (v := match r with Ok payload => _ | Err error => _ end).
  assert (Hv : _active (this v) = _active (this w) /\ video v = video w /\
               document_hidden v = document_hidden w /\ tasks v = tasks w).
  { subst v. destruct r as [payload | error]; [done |].
    destruct (_active (this w)) eqn:Ha; cbn [negb]; [| done].
    by destruct (includes "service unavailable" error). }
  destruct Hv as (Ha & Hvideo & Hhidden & Htasks).
  destruct (scanFrame_bound v) as (-> & -> & -> & _ & -> & ->).
  rewrite Htasks. repeat split; try done.
  destruct (negb _ || _ || _); lia.
Qed.

Lemma loop_step_bound P e w :
  loop_event e ->
  let w' := step P e w in
  _active (this w') = _active (this w) /\ video w' = video w /\
  document_hidden w' = document_hidden w /\
  cycles w' <= cycles w + (if is_play e then 1 else 0).
Proof.
  intros He. cbv zeta.
  destruct e as [| | | | | | | | | readyState | r | | |]; try done; cbn [step is_play].
  - unfold _onPlay, cycles.
    destruct (scanFrame_bound w) as (-> & -> & -> & _ & -> & ->).
    repeat split. destruct (negb _ || _ || _); lia.
  - destruct (animation_frame_bound readyState w) as (-> & -> & -> & _ & Hc).
    repeat split. lia.
  - destruct (inflight (tasks w)) as [| n] eqn:Hn; [repeat split; lia |].
    destruct (scanFrame_settled_frame r (on_tasks (set_inflight n) w))
      as (-> & -> & -> & Hi & Hr).
    repeat split. unfold cycles in *. cbn in *. lia.
Qed.

(** X8.  Scan cycles are only ever added by the video's play event: an
    animation frame or a returning round-trip never leaves more cycles under
    way (frames requested plus round-trips in flight) than there were, and a
    play event adds at most one. *)
Theorem cycles_only_added_by_play P events w :
  Forall loop_event events ->
  cycles (run P events w) <= cycles w + length (List.filter is_play events).
Proof.
  intros Hevents. revert w.
  induction Hevents as [| e events He _ IH]; intros w; [cbn; lia |].
  rewrite run_cons. specialize (IH (step P e w)).
  destruct (loop_step_bound P e w He) as (_ & _ & _ & Hstep).
  cbn [List.filter]. destruct (is_play e); cbn [length]; lia.
Qed.

Lemma cycles_only_added_by_play_witness :
  cycles (run phone [PlayEvent; AnimationFrame 4; ScanSettled (Ok "ABC123");
                     AnimationFrame 0; AnimationFrame 4] scanning) <= 0 + 1.
Proof.
  apply (cycles_only_added_by_play phone
           [PlayEvent; AnimationFrame 4; ScanSettled (Ok "ABC123");
            AnimationFrame 0; AnimationFrame 4] scanning).
  repeat constructor.
Defined.

Lemma scanFrame_inactive w : _active (this w) = false -> _scanFrame w = w.
Proof. intros Ha. unfold _scanFrame. by rewrite Ha. Qed.

Lemma frames_inactive readyState n w :
  _active (this w) = false ->
  let w' := Nat.iter n (_scanFrame_frame readyState) w in
  _active (this w') = false /\ trace w' = trace w /\
  animation_requests (tasks w') = animation_requests (tasks w) /\
  inflight (tasks w') <= inflight (tasks w) + n.
Proof.
  intros Ha. cbv zeta. induction n as [| n IH]; [cbn [Nat.iter nat_rect] | rewrite Nat.iter_succ].
  - repeat split; try done. lia.
  - destruct IH as (IHa & IHtrace & IHr & IHi).
    set (v := Nat.iter n (_scanFrame_frame readyState) w) in *.
    unfold _scanFrame_frame. destruct (readyState <=? 1).
    + rewrite scanFrame_inactive by done. repeat split; try done. lia.
    + cbn. repeat split; try done. lia.
Qed.

Lemma loop_step_inactive P e w :
  _active (this w) = false -> loop_event e ->
  let w' := step P e w in
  _active (this w') = false /\
  exists obs,
    trace w' = trace w ++ obs /\
    Forall (fun o => exists payload, o = OnDecode payload) obs /\
    cycles w' + length obs <= cycles w.
Proof.
  intros Ha He. cbv zeta.
  destruct e as [| | | | | | | | | readyState | r | | |]; try done; cbn [step].
  - unfold _onPlay. rewrite scanFrame_inactive by done.
    split; [done |]. exists []. rewrite app_nil_r. repeat split; [constructor | cbn; lia].
  - unfold animation_frame. destruct (document_hidden w).
    { split; [done |]. exists []. rewrite app_nil_r.
      repeat split; [constructor | cbn; lia]. }
    destruct (frames_inactive readyState (animation_requests (tasks w))
                (on_tasks (set_animation_requests 0) w) Ha) as (Ha' & Htr & Hr & Hi).
    split; [done |]. exists []. rewrite app_nil_r, Htr.
    repeat split; [constructor |]. unfold cycles in *. cbn in *. lia.
  - destruct (inflight (tasks w)) as [| n] eqn:Hn.
    { split; [done |]. exists []. rewrite app_nil_r.
      repeat split; [constructor | cbn; lia]. }
    unfold _scanFrame_settled. destruct r as [payload | error].
    + rewrite scanFrame_inactive by done. split; [done |].
      exists [OnDecode payload]. repeat split.
      * repeat constructor. by exists payload.
      * unfold cycles. cbn. lia.
    + cbn [this on_tasks]. rewrite Ha. cbn [negb].
      rewrite scanFrame_inactive by done. split; [done |].
      exists []. rewrite app_nil_r. repeat split; [constructor |].
      unfold cycles. cbn. lia.
Qed.

(** X9.  After [stop()] the loop runs dry.  On an inactive scanner the play
    event, animation frames and returning round-trips schedule nothing new;
    the decode-error handler is never called; and the decode handler is
    called at most once for each cycle that was under way when the scanner
    became inactive. *)
Theorem loop_runs_dry P events w :
  _active (this w) = false ->
  Forall loop_event events ->
  let w' := run P events w in
  _active (this w') = false /\
  exists obs,
    trace w' = trace w ++ obs /\
    Forall (fun o => exists payload, o = OnDecode payload) obs /\
    cycles w' + length obs <= cycles w.
Proof.
  intros Ha Hevents. cbv zeta. revert w Ha.
  induction Hevents as [| e events He _ IH]; intros w Ha.
  - split; [done |]. exists []. rewrite app_nil_r. repeat split; [constructor | cbn; lia].
  - rewrite run_cons.
    destruct (loop_step_inactive P e w Ha He) as (Ha1 & obs1 & Htr1 & Hobs1 & Hc1).
    destruct (IH (step P e w) Ha1) as (Ha2 & obs2 & Htr2 & Hobs2 & Hc2).
    split; [done |]. exists (obs1 ++ obs2). rewrite Htr2, Htr1, app_assoc.
    repeat split; [by apply Forall_app |]. rewrite length_app. lia.
Qed.

Lemma loop_runs_dry_witness :
  _active (this (run phone [ScanSettled (Err NO_QR_CODE_FOUND); PlayEvent; AnimationFrame 4]
                   (stop decoding))) = false.
Proof.
  apply (loop_runs_dry phone [ScanSettled (Err NO_QR_CODE_FOUND); PlayEvent; AnimationFrame 4]
           (stop decoding)).
  - reflexivity.
  - repeat constructor.
Defined.

Lemma turn_spec P r w :
  _active (this w) = true -> paused (video w) = false -> ended (video w) = false ->
  document_hidden w = false ->
  animation_requests (tasks w) = 0 -> inflight (tasks w) = 1 ->
  let w' := run P (turn r) w in
  trace w' = trace w ++ [report r] /\
  _active (this w') = true /\ video w' = video w /\
  document_hidden w' = false /\
  animation_requests (tasks w') = 0 /\ inflight (tasks w') = 1 /\
  _qrEnginePromise (this w') =
    _qrEnginePromise (this w) + (if is_unavailable r then 1 else 0).
Proof.
  intros Ha Hp He Hh Hr Hi. cbv zeta. unfold turn. rewrite !run_cons. cbn [run foldl].
  cbn [step]. rewrite Hi.
  set (w1 := _scanFrame_settled r _).
  assert (H1 : trace w1 = trace w ++ [report r] /\
               _active (this w1) = true /\ video w1 = video w /\
               document_hidden w1 = false /\
               animation_requests (tasks w1) = 1 /\ inflight (tasks w1) = 0 /\
               _qrEnginePromise (this w1) =
                 _qrEnginePromise (this w) + (if is_unavailable r then 1 else 0)).
  { subst w1. unfold _scanFrame_settled, _scanFrame.
    destruct r as [payload | error]; cbn [this on_tasks observe video is_unavailable report].
    - rewrite Ha, Hp, He. cbn. rewrite Hr, Hh. repeat split; try done; lia.
    - rewrite Ha. cbn [negb].
      destruct (includes "service unavailable" error); cbn; rewrite Ha, Hp, He; cbn;
        rewrite Hr, Hh; repeat split; try done; lia. }
  destruct H1 as (Htr & Ha1 & Hv1 & Hh1 & Hr1 & Hi1 & Hq1).
  unfold animation_frame. rewrite Hh1, Hr1. cbn [Nat.iter nat_rect].
  unfold _scanFrame_frame. cbn [Nat.leb].
  cbn. rewrite Hi1. repeat split; try done.
Qed.

(** X10.  The loop keeps going whatever the round-trips return.  On an
    active, visible scanner whose video plays, with one round-trip in
    flight: for any succession of results, each followed by an animation
    frame, every result is reported once and in order (a payload to the
    decode handler, an error to the decode-error handler), a round-trip is
    in flight again after each of them, and the engine is replaced once for
    every error that says 'service unavailable'. *)
Theorem scan_loop_reports_in_order P results w :
  _active (this w) = true -> paused (video w) = false -> ended (video w) = false ->
  document_hidden w = false ->
  animation_requests (tasks w) = 0 -> inflight (tasks w) = 1 ->
  let w' := run P (flat_map turn results) w in
  trace w' = trace w ++ map report results /\
  _active (this w') = true /\
  video w' = video w /\
  animation_requests (tasks w') = 0 /\
  inflight (tasks w') = 1 /\
  _qrEnginePromise (this w') =
    _qrEnginePromise (this w) + length (List.filter is_unavailable results).
Proof.
  cbv zeta. revert w. induction results as [| r results IH];
    intros w Ha Hp He Hh Hr Hi.
  - cbn. rewrite app_nil_r. repeat split; try done; lia.
  - cbn [flat_map]. rewrite run_app.
    destruct (turn_spec P r w Ha Hp He Hh Hr Hi)
      as (Htr1 & Ha1 & Hv1 & Hh1 & Hr1 & Hi1 & Hq1).
    destruct (IH (run P (turn r) w)) as (Htr2 & Ha2 & Hv2 & Hr2 & Hi2 & Hq2);
      try done; try congruence.
    rewrite Htr2, Htr1, Hv2, Hv1, Hq2, Hq1. cbn [map List.filter].
    rewrite <- app_assoc. repeat split; try done.
    destruct (is_unavailable r); cbn [length]; lia.
Qed.

Lemma scan_loop_reports_in_order_witness :
  trace (run phone
           (flat_map turn [Err NO_QR_CODE_FOUND; Err NO_QR_CODE_FOUND;
                           Err NO_QR_CODE_FOUND; Ok "ABC123"]) decoding)
  = trace decoding
    ++ [OnDecodeError NO_QR_CODE_FOUND; OnDecodeError NO_QR_CODE_FOUND;
        OnDecodeError NO_QR_CODE_FOUND; OnDecode "ABC123"].
Proof.
  apply (scan_loop_reports_in_order phone
           [Err NO_QR_CODE_FOUND; Err NO_QR_CODE_FOUND; Err NO_QR_CODE_FOUND; Ok "ABC123"]
           decoding); reflexivity.
Defined.

(** ** The page changing visibility *)

Lemma elapse_paused_fires ms w d :
  _paused (this w) = true ->
  In d (timers (tasks w)) -> d <= clock (tasks w) + ms ->
  elapse ms w = stopStream (advance ms w).
Proof.
  intros Hp Hin Hd. unfold elapse. apply fire_timers_paused; [done |].
  eapply filter_nonempty; [exact Hin |]. by apply Nat.leb_le.
Qed.

Lemma torn_down_same_media w x y :
  srcObject (video y) = srcObject (video x) -> attached y = attached x ->
  stopped y = stopped x -> torn_down w x -> torn_down w y.
Proof.
  intros Hsrc Hatt Hst [Hnone Htracks]. split; [congruence |].
  intros stream Hw. destruct (Htracks stream Hw) as [Hempty Hstopped].
  unfold getTracks in *. rewrite Hatt, Hst. done.
Qed.

(** X11.  A page that is hidden and shown again.  On an active scanner that
    shows its camera, with no timer pending: when the page comes back within
    300 ms the stream is untouched and the video plays again, with no camera
    request; when it comes back later the stream has been torn down and
    [start()] leaves a camera request for the current preference pending. *)
Theorem hidden_and_shown_again P w a b :
  _active (this w) = true -> document_hidden w = false -> timers (tasks w) = [] ->
  is_Some (srcObject (video w)) ->
  let w' := run P [VisibilityChange true; Elapse a; VisibilityChange false; Elapse b] w in
  _active (this w') = true /\
  _paused (this w') = false /\
  document_hidden w' = false /\
  (a < PAUSE_DELAY ->
     stream_intact w w' /\
     paused (video w') = false /\
     acquisitions (tasks w') = acquisitions (tasks w)) /\
  (PAUSE_DELAY <= a ->
     torn_down w w' /\
     acquisitions (tasks w') =
       acquisitions (tasks w) ++ [acquisition_for (_preferredCamera (this w))]).
Proof.
  intros Hactive Hvisible Htimers [stream Hsrc] w'.
  set (w1 := on_tasks (fun t => set_timers (timers t ++ [clock t + PAUSE_DELAY]) t)
               (video_pause (on_this (set_paused true) (set_document_hidden true w)))).
  assert (E1 : step P (VisibilityChange true) w = w1).
  { cbn [step]. unfold _onVisibilityChange. cbn [document_hidden set_document_hidden].
    by rewrite pause_deferred_active. }
  assert (Hw' : w' = elapse b (_onVisibilityChange (set_document_hidden false (elapse a w1)))).
  { subst w'. rewrite !run_cons, E1. reflexivity. }
  assert (Hp1 : _paused (this w1) = true) by done.
  assert (Ha1 : _active (this w1) = true) by done.
  destruct (Nat.lt_ge_cases a PAUSE_DELAY) as [Hquick | Hslow].
  - assert (Hidle : Forall (fun d => clock (tasks w1) + a < d) (timers (tasks w1))).
    { subst w1. cbn. rewrite Htimers. repeat constructor. lia. }
    rewrite (elapse_idle a w1 Hidle) in Hw'.
    unfold _onVisibilityChange in Hw'.
    cbn [document_hidden set_document_hidden this advance on_tasks] in Hw'.
    rewrite Ha1 in Hw'.
    rewrite (start_paused_with_stream _ stream) in Hw' by done.
    rewrite elapse_unpaused in Hw' by done.
    rewrite Hw'. subst w1. unfold stream_intact. cbn.
    repeat split; try done; lia.
  - assert (Hfire : elapse a w1 = stopStream (advance a w1)).
    { apply (elapse_paused_fires a w1 (clock (tasks w) + PAUSE_DELAY)); [done | |].
      - subst w1. cbn. rewrite Htimers. by left.
      - subst w1. cbn. lia. }
    rewrite Hfire in Hw'.
    set (w2 := stopStream (advance a w1)) in *.
    assert (Hframe : this w2 = this w1 /\ srcObject (video w2) = None /\
                     document_hidden w2 = true /\ tasks w2 = tasks (advance a w1)).
    { subst w2. destruct (stopStream_frame (advance a w1)) as (-> & -> & -> & -> & _).
      done. }
    destruct Hframe as (Hthis2 & Hsrc2 & Hhidden2 & Htasks2).
    assert (Htorn2 : torn_down w w2).
    { subst w2. eapply torn_down_transfer; [| apply stopStream_torn_down]. done. }
    unfold _onVisibilityChange in Hw'.
    cbn [document_hidden set_document_hidden this] in Hw'.
    rewrite Hthis2, Ha1 in Hw'.
    rewrite start_paused_no_stream in Hw'
      by (cbn [set_document_hidden this video document_hidden]; rewrite ?Hthis2; done).
    rewrite elapse_unpaused in Hw' by done.
    assert (Htorn' : torn_down w w').
    { rewrite Hw'. eapply torn_down_same_media; [| | | exact Htorn2]; done. }
    assert (Hfacts : _active (this w') = true /\ _paused (this w') = false /\
                     document_hidden w' = false /\
                     acquisitions (tasks w') =
                       acquisitions (tasks w)
                       ++ [acquisition_for (_preferredCamera (this w))]).
    { rewrite Hw'.
      cbn [this on_this on_tasks tasks advance set_document_hidden acquisitions
           set_acquisitions set_timers set_clock document_hidden _active _paused
           set_paused set_active _preferredCamera].
      rewrite Hthis2, Htasks2. subst w1. by cbn. }
    destruct Hfacts as (? & ? & ? & ?).
    do 3 (split; [done |]). split; [intros ?; lia |]. intros _. by split.
Qed.

Lemma hidden_and_shown_again_witness :
  acquisitions
    (tasks (run phone [VisibilityChange true; Elapse 400; VisibilityChange false; Elapse 10]
              scanning))
  = [acquisition_for "environment"].
Proof.
  destruct (hidden_and_shown_again phone scanning 400 10 eq_refl eq_refl eq_refl
              (ex_intro _ 7 eq_refl)) as (_ & _ & _ & _ & Hslow).
  apply Hslow. vm_compute. lia.
Defined.

(** ** One-shot decode: requests and answers *)

(** What the first promise of a call does with the engine: one decode
    request, on an image that loaded, or none at all. *)
Lemma scanImage_promise_requests P gotExternalWorker source scanRegion qrEngine canvas
    disallow st :
  let '(st1, qrEngine1, _, r) :=
    scanImage_promise P gotExternalWorker source scanRegion qrEngine canvas disallow st in
  (exists engine bitmap,
     submitted st1 = submitted st ++ [(engine, bitmap)] /\
     r = settle (decode P (length (submitted st)) engine bitmap) /\
     qrEngine1 = Some engine /\
     (forall e, qrEngine = Some e -> engine = e) /\
     exists image, _loadImage source = Ok image)
  \/ (submitted st1 = submitted st /\ qrEngine1 = qrEngine /\
      ((exists e, _loadImage source = Err e) \/ qrEngine = None) /\
      exists e, r = Err e).
Proof.
  unfold scanImage_promise.
  pose proof (engine_of_submitted P qrEngine st) as Hsub.
  assert (Hsame : forall e engine, qrEngine = Some e ->
            (engine_of P qrEngine st).2 = Ok engine -> engine = e).
  { intros e engine -> Heq. cbn in Heq. congruence. }
  destruct (engine_of P qrEngine st) as [st0 [engine | e]] eqn:Hengine; cbn [fst snd] in *.
  - destruct (_loadImage source) as [image | e].
    + pose proof (request_decode_spec P gotExternalWorker engine
                    (_drawToCanvas image scanRegion canvas disallow) st0) as Hspec.
      destruct (request_decode P gotExternalWorker engine _ st0) as [st1 r].
      destruct Hspec as (Hr & Hsubmitted & _). left.
      exists engine, (pixels (_drawToCanvas image scanRegion canvas disallow)).
      rewrite Hsubmitted, Hr, Hsub. repeat split; eauto.
    + right. eauto 10.
  - assert (Hnone : qrEngine = None).
    { destruct qrEngine as [supplied |]; [| done]. cbn in Hengine. discriminate. }
    destruct (_loadImage source) as [image | e'];
      right; (split; [done |]); (split; [done |]); (split; [by right | eauto]).
Qed.

(** X12.  The decode requests of one [scanImage] call.  Whatever the
    arguments, the call makes at most two requests, at most one unless a
    region is given together with [alsoTryWithoutScanRegion], and none when
    the image does not load; all of them go to one engine, the supplied one
    if there is one; and the call settles as the engine answered the last
    of them, so a payload is never returned that the engine did not find. *)
Theorem scanImage_requests P fuel source scanRegion qrEngine canvas disallow also st :
  let result :=
    scanImage P (S (S fuel)) source scanRegion qrEngine canvas disallow also st in
  exists requests,
    submitted (fst result) = submitted st ++ requests /\
    length requests <= 2 /\
    (scanRegion = None \/ also = false -> length requests <= 1) /\
    (forall e, _loadImage source = Err e -> requests = []) /\
    (forall p q, In p requests -> In q requests -> p.1 = q.1) /\
    (forall e p, qrEngine = Some e -> In p requests -> p.1 = e) /\
    match last requests with
    | Some (engine, bitmap) =>
        snd result =
          Some (settle (decode P (length (submitted st) + length requests - 1) engine bitmap))
    | None => exists e, snd result = Some (Err e)
    end.
Proof.
  cbv zeta. rewrite scanImage_S. cbv zeta.
  pose proof (scanImage_promise_requests P (is_worker qrEngine) source scanRegion qrEngine
                canvas disallow st) as H1.
  destruct (scanImage_promise P (is_worker qrEngine) source scanRegion qrEngine canvas
              disallow st) as [[[st1 qrEngine1] canvas1] promise].
  (* a call that settles with its first promise *)
  assert (Hdone : forall stf,
    submitted stf = submitted st1 ->
    exists requests,
      submitted stf = submitted st ++ requests /\
      length requests <= 2 /\
      (scanRegion = None \/ also = false -> length requests <= 1) /\
      (forall e, _loadImage source = Err e -> requests = []) /\
      (forall p q, In p requests -> In q requests -> p.1 = q.1) /\
      (forall e p, qrEngine = Some e -> In p requests -> p.1 = e) /\
      match last requests with
      | Some (engine, bitmap) =>
          Some promise =
            Some (settle (decode P (length (submitted st) + length requests - 1)
                            engine bitmap))
      | None => exists e, Some promise = Some (Err e)
      end).
  { intros stf ->.
    destruct H1 as [(engine & bitmap & Hsub & Hr & _ & Hsame & image & Hload)
                   | (Hsub & _ & _ & e & Hr)].
    - exists [(engine, bitmap)]. rewrite Hsub. cbn [length last].
      replace (length (submitted st) + 1 - 1) with (length (submitted st)) by lia.
      repeat split; try done; try lia.
      + intros e He. congruence.
      + intros p q [<- | []] [<- | []]. done.
      + intros e p He [<- | []]. cbn. by apply Hsame.
      + by rewrite Hr.
    - exists []. rewrite Hsub, app_nil_r. cbn [length last].
      repeat split; try done; try lia. exists e. by rewrite Hr. }
  assert (Hfinally : forall q stx,
    submitted (if is_worker qrEngine then stx else _postWorkerMessage q Close stx)
    = submitted stx).
  { intros q stx. destruct (is_worker qrEngine); [done |].
    apply submitted_postWorkerMessage. }
  destruct scanRegion as [region |], also, promise as [payload | err];
    try (cbn [fst snd]; apply Hdone, Hfinally).
  (* the rejected first promise of a call that tries again *)
  rewrite scanImage_single by (by left).
  pose proof (scanImage_promise_requests P (is_worker qrEngine1) source None qrEngine1
                canvas1 disallow st1) as H2.
  destruct (scanImage_promise P (is_worker qrEngine1) source None qrEngine1 canvas1
              disallow st1) as [[[st2 qrEngine2] canvas2] promise2].
  cbn [fst snd]. rewrite Hfinally.
  assert (Hinner : submitted
            (if is_worker qrEngine1 then st2 else _postWorkerMessage qrEngine2 Close st2)
          = submitted st2).
  { destruct (is_worker qrEngine1); [done |]. apply submitted_postWorkerMessage. }
  rewrite Hinner.
  destruct H1 as [(engine & bitmap & Hsub1 & Hr1 & Hq1 & Hsame1 & image & Hload)
                 | (Hsub1 & Hq1 & _ & e1 & Hr1)];
  destruct H2 as [(engine2 & bitmap2 & Hsub2 & Hr2 & _ & Hsame2 & image2 & Hload2)
                 | (Hsub2 & _ & Hwhy & e2 & Hr2)].
  - (* two requests *)
    assert (engine2 = engine) as -> by (by apply Hsame2).
    exists [(engine, bitmap); (engine, bitmap2)].
    rewrite Hsub2, Hsub1, <- app_assoc. cbn [app length last].
    rewrite Hr2, Hsub1, length_app. cbn [length].
    replace (length (submitted st) + 2 - 1) with (length (submitted st) + 1) by lia.
    repeat split; try done; try lia.
    + intros [? | ?]; done.
    + intros e He. congruence.
    + intros p q [<- | [<- | []]] [<- | [<- | []]]; done.
    + intros e p He [<- | [<- | []]]; cbn; by apply Hsame1.
  - (* a second attempt without a request: not after the image has loaded *)
    exfalso. destruct Hwhy as [[e He] | Hnone]; congruence.
  - (* the first attempt made no request *)
    exists [(engine2, bitmap2)]. rewrite Hsub2, Hsub1. cbn [length last].
    rewrite Hr2, Hsub1.
    replace (length (submitted st) + 1 - 1) with (length (submitted st)) by lia.
    repeat split; try done; try lia.
    + intros e He. congruence.
    + intros p q [<- | []] [<- | []]. done.
    + intros e p He [<- | []]. cbn. apply Hsame2. congruence.
  - exists []. rewrite Hsub2, Hsub1, app_nil_r. cbn [length last].
    repeat split; try done; try lia. exists e2. by rewrite Hr2.
Qed.

Lemma scanImage_internal_closed_witness :
  let result :=
    scanImage phone 2 (Drawable vga) (Some corner_region) None None false true no_engines in
  created (fst result) = [{| engine_id := 0; engine_kind := WorkerEngine |}] /\
  exists msgs,
    posted (fst result) = msgs ++ [(0, Close)] /\ Forall not_close msgs.
Proof.
  exact (scanImage_internal_closed phone 0 (Drawable vga) vga (Some corner_region) None
           false true no_engines
           {| created := [{| engine_id := 0; engine_kind := WorkerEngine |}];
              posted := []; submitted := [] |}
           {| engine_id := 0; engine_kind := WorkerEngine |} eq_refl eq_refl).
Defined.

(** ** Drawing the same frame again *)

Lemma reflect_dimension_holdable default v :
  holdable default -> holdable (reflect_dimension default v).
Proof.
  unfold reflect_dimension, holdable, MAX_CANVAS_DIMENSION. intros Hdefault.
  destruct (Z.leb_spec (v mod 4294967296) 2147483647) as [Hle | Hgt]; [| done].
  pose proof (Z.mod_pos_bound v 4294967296 ltac:(lia)). lia.
Qed.

Lemma default_size_holdable :
  holdable CANVAS_DEFAULT_WIDTH /\ holdable CANVAS_DEFAULT_HEIGHT.
Proof. unfold holdable. vm_compute. repeat split; congruence. Qed.

(** X15.  Drawing the same frame again.  When resizing is disallowed, or the
    size asked for is one a canvas can hold, a second [_drawToCanvas] with
    the same arguments on the canvas that the first returned leaves it
    exactly as it was: neither [width] nor [height] is assigned, so the
    canvas is not cleared in between.  When resizing is allowed and the size
    asked for is one a canvas cannot hold, every draw assigns a dimension
    again. *)
Theorem drawToCanvas_again image scanRegion canvas disallowCanvasResizing :
  let first := _drawToCanvas image scanRegion canvas disallowCanvasResizing in
  let second := _drawToCanvas image scanRegion (Some first) disallowCanvasResizing in
  (disallowCanvasResizing = true \/
   (holdable (requested_width image scanRegion) /\
    holdable (requested_height image scanRegion)) ->
   second = first) /\
  (disallowCanvasResizing = false ->
   (forall c, canvas = Some c -> holdable (canvas_width c) /\ holdable (canvas_height c)) ->
   ~ (holdable (requested_width image scanRegion) /\
      holdable (requested_height image scanRegion)) ->
   resets first < resets second).
Proof.
  cbv zeta. unfold _drawToCanvas, requested_width, requested_height.
  set (c := match canvas with Some c => c | None => createCanvas end).
  set (w := region_or scanRegion downScaledWidth _).
  set (h := region_or scanRegion downScaledHeight _).
  destruct default_size_holdable as [Hdw Hdh].
  split.
  - intros Hok. destruct disallowCanvasResizing; [done |].
    destruct Hok as [? | [Hw Hh]]; [done |].
    set (c1 := if (canvas_height (if (canvas_width c =? w)%Z then c
                                  else set_canvas_width w c) =? h)%Z
               then _ else _).
    assert (Hc1 : canvas_width c1 = w /\ canvas_height c1 = h).
    { subst c1. destruct (Z.eqb_spec (canvas_width c) w);
        cbn [canvas_height set_canvas_width];
        destruct (Z.eqb_spec (canvas_height c) h); cbn;
        rewrite ?reflect_dimension_id by done; done. }
    destruct Hc1 as [Hw1 Hh1].
    cbn [canvas_width canvas_height set_imageSmoothingEnabled drawImage].
    rewrite Hw1, Z.eqb_refl.
    cbn [canvas_width canvas_height set_imageSmoothingEnabled drawImage].
    rewrite Hh1, Z.eqb_refl.
    unfold drawImage, set_imageSmoothingEnabled.
    cbn [canvas_width canvas_height pixels imageSmoothingEnabled resets].
    by rewrite ?Hw1, ?Hh1.
  - intros -> Hcanvas Hnot.
    assert (Hc : holdable (canvas_width c) /\ holdable (canvas_height c)).
    { subst c. destruct canvas as [c |]; [by apply Hcanvas | done]. }
    destruct Hc as [Hcw Hch].
    set (c1 := if (canvas_height (if (canvas_width c =? w)%Z then c
                                  else set_canvas_width w c) =? h)%Z
               then _ else _).
    assert (Hc1 : holdable (canvas_width c1) /\ holdable (canvas_height c1) /\
                  (holdable w -> canvas_width c1 = w)).
    { subst c1. destruct (Z.eqb_spec (canvas_width c) w);
        cbn [canvas_height set_canvas_width];
        destruct (Z.eqb_spec (canvas_height c) h);
        cbn [canvas_width canvas_height set_canvas_width set_canvas_height];
        (split; [| split]); try done; try (by apply reflect_dimension_holdable);
        intros Hw; by rewrite ?reflect_dimension_id. }
    destruct Hc1 as (Hw1 & Hh1 & Hkeep).
    cbn [canvas_width canvas_height set_imageSmoothingEnabled drawImage resets].
    destruct (Z.eqb_spec (canvas_width c1) w) as [Ew | Ew];
      cbn [canvas_width canvas_height set_canvas_width set_imageSmoothingEnabled
           drawImage resets];
      destruct (Z.eqb_spec (canvas_height c1) h) as [Eh | Eh];
      cbn [canvas_width canvas_height set_canvas_width set_canvas_height
           set_imageSmoothingEnabled drawImage resets]; try lia.
    exfalso. apply Hnot. by rewrite <- Ew, <- Eh.
Qed.

(** ** Listing cameras *)

Lemma attached_stop_tracks stream l w s :
  s <> stream -> attached (stop_tracks stream l w) !! s = attached w !! s.
Proof.
  intros Hs. revert w. induction l as [| t l IH]; intros w; [done |].
  cbn [stop_tracks]. rewrite IH.
  cbn [attached removeTrack stop_track set_attached set_stopped].
  by rewrite lookup_alter_ne.
Qed.

Lemma fallback_label_inj i j d e :
  info_label d = "" -> info_label e = "" ->
  label_or_default i d = label_or_default j e -> i = j.
Proof.
  unfold label_or_default. intros -> ->. cbn [truthy_str].
  destruct (Nat.eqb_spec i 0) as [-> | Hi], (Nat.eqb_spec j 0) as [-> | Hj];
    try done.
  cbn [String.append]. intros Heq. injection Heq as Heq.
  change (pretty (i + 1) = pretty (j + 1)) in Heq.
  apply (inj pretty) in Heq. lia.
Qed.

Lemma label_or_default_nonempty i d : label_or_default i d <> "".
Proof.
  unfold label_or_default.
  destruct (info_label d) eqn:Hlabel; cbn [truthy_str]; [| done].
  by destruct (Nat.eqb i 0).
Qed.

(** X16.  What [listCameras] resolves with.  When [enumerateDevices()]
    resolves, the list has one entry per video input, in the order of the
    devices and with their ids; no entry has an empty label; a device that
    has a label keeps it; and when the browser tells no labels at all, the
    labels made up for the entries are pairwise different. *)
Theorem listCameras_entries mediaDevices requestLabels w devices :
  enumerateDevices mediaDevices (openedStream mediaDevices requestLabels) = Ok devices ->
  exists cameras,
    snd (listCameras (Some mediaDevices) requestLabels w) = Ok cameras /\
    map camera_id cameras = map info_deviceId (List.filter is_videoinput devices) /\
    Forall (fun camera => camera_label camera <> "") cameras /\
    (forall i camera device,
       cameras !! i = Some camera ->
       List.filter is_videoinput devices !! i = Some device ->
       info_label device <> "" -> camera_label camera = info_label device) /\
    (Forall (fun device => info_label device = "") devices ->
     NoDup (map camera_label cameras)).
Proof.
  intros Hdevices. exists (cameras_of devices).
  split; [| split; [| split; [| split]]].
  - unfold listCameras. cbv zeta. cbn [snd]. by rewrite Hdevices.
  - unfold cameras_of. generalize (List.filter is_videoinput devices). intros l.
    change (camera_id <$> imap (fun i device =>
              {| camera_id := info_deviceId device;
                 camera_label := label_or_default i device |}) l
            = info_deviceId <$> l).
    rewrite fmap_imap. apply list_eq. intros i.
    by rewrite list_lookup_imap, list_lookup_fmap.
  - apply Forall_forall. intros camera Hin.
    apply elem_of_lookup_imap_1 in Hin as (i & d & -> & _).
    apply label_or_default_nonempty.
  - intros i camera device Hcamera Hdevice Hlabel. unfold cameras_of in Hcamera.
    rewrite list_lookup_imap, Hdevice in Hcamera. injection Hcamera as <-.
    cbn [camera_label]. unfold label_or_default.
    by destruct (info_label device).
  - intros Hnone. unfold cameras_of.
    assert (Hl : Forall (fun device => info_label device = "")
                   (List.filter is_videoinput devices)).
    { apply Forall_forall. intros d Hd.
      apply list_elem_of_In, filter_In in Hd as [Hd _].
      rewrite Forall_forall in Hnone. by apply Hnone, list_elem_of_In. }
    revert Hl. generalize (List.filter is_videoinput devices). intros l Hl.
    apply NoDup_alt. intros i j label Hi Hj.
    change (map camera_label ?x) with (camera_label <$> x) in Hi, Hj.
    rewrite list_lookup_fmap, list_lookup_imap in Hi, Hj.
    destruct (l !! i) as [d |] eqn:Hd; [| done].
    destruct (l !! j) as [e |] eqn:He; [| done].
    cbn in Hi, Hj. injection Hi as Hi. injection Hj as Hj.
    rewrite Forall_lookup in Hl.
    eapply (fallback_label_inj i j d e); eauto. congruence.
Qed.

Lemma listCameras_entries_witness :
  snd (listCameras (Some laptop) true (constructor "environment" false))
  = Ok [ {| camera_id := "cam-a"; camera_label := "Integrated Webcam" |};
         {| camera_id := "cam-b"; camera_label := "USB Camera" |} ] /\
  snd (listCameras (Some laptop) false (constructor "environment" false))
  = Ok [ {| camera_id := "cam-a"; camera_label := "Default Camera" |};
         {| camera_id := "cam-b"; camera_label := "Camera 2" |} ].
Proof.
  split.
  - destruct (listCameras_entries laptop true (constructor "environment" false) _ eq_refl)
      as (cameras & Hcameras & _).
    rewrite Hcameras. vm_compute in Hcameras. by injection Hcameras as <-.
  - destruct (listCameras_entries laptop false (constructor "environment" false) _ eq_refl)
      as (cameras & Hcameras & _).
    rewrite Hcameras. vm_compute in Hcameras. by injection Hcameras as <-.
Defined.

(** X17.  [listCameras] hands back the camera it opened.  However the call
    settles, also when [enumerateDevices()] rejects, the stream opened for
    the labels ends with no track attached and with every track stopped; no
    other stream loses a track, and the scanner, its video and its pending
    tasks are as before.  A call that opens no stream changes nothing. *)
Theorem listCameras_releases_stream mediaDevices requestLabels w :
  let w' := fst (listCameras mediaDevices requestLabels w) in
  this w' = this w /\ video w' = video w /\ tasks w' = tasks w /\ trace w' = trace w /\
  match mediaDevices with
  | None => w' = w
  | Some devices =>
      match openedStream devices requestLabels with
      | None => w' = w
      | Some stream =>
          getTracks w' (stream_id stream) = [] /\
          (forall i, i ∈ stopped w' <->
                     i ∈ stopped w \/ exists t, t ∈ stream_tracks stream /\ track_id t = i) /\
          (forall s, s <> stream_id stream -> attached w' !! s = attached w !! s)
      end
  end.
Proof.
  cbv zeta. unfold listCameras.
  destruct mediaDevices as [devices |]; [| done]. cbv zeta. cbn [fst].
  destruct (openedStream devices requestLabels) as [stream |]; [| done].
  set (w1 := set_attached (<[stream_id stream := stream_tracks stream]> (attached w)) w).
  assert (Htracks : getTracks w1 (stream_id stream) = stream_tracks stream).
  { unfold getTracks, w1. cbn [attached set_attached]. by rewrite lookup_insert_eq. }
  rewrite Htracks.
  destruct (stop_tracks_frame (stream_id stream) (stream_tracks stream) w1)
    as (-> & -> & _ & -> & ->).
  do 4 (split; [done |]). split; [| split].
  - rewrite getTracks_stop_tracks, Htracks. by apply filter_differs_from_own.
  - intros i. by rewrite stopped_stop_tracks.
  - intros s Hs. rewrite attached_stop_tracks by done.
    unfold w1. cbn [attached set_attached]. by rewrite lookup_insert_ne.
Qed.

(** X18.  [hasCamera] opens no stream and changes nothing; it answers true
    exactly when [navigator.mediaDevices] exists and [enumerateDevices()]
    resolves with a list that holds a video input.  A rejection gives
    false. *)
Theorem hasCamera_spec mediaDevices w :
  fst (hasCamera mediaDevices w) = w /\
  (snd (hasCamera mediaDevices w) = true <->
   exists devices list device,
     mediaDevices = Some devices /\
     enumerateDevices devices None = Ok list /\
     In device list /\ info_kind device = "videoinput").
Proof.
  unfold hasCamera, listCameras.
  destruct mediaDevices as [devices |]; cbv zeta; cbn [openedStream].
  - destruct (enumerateDevices devices None) as [list | e] eqn:Hlist; cbn [fst snd].
    + split; [done |]. unfold cameras_of. rewrite length_imap.
      split.
      * intros Hsome.
        destruct (List.filter is_videoinput list) as [| device rest] eqn:Hfilter;
          [done |].
        assert (Hin : In device (List.filter is_videoinput list))
          by (rewrite Hfilter; by left).
        apply filter_In in Hin as [Hin Hkind].
        exists devices, list, device. repeat split; try done.
        by apply String.eqb_eq.
      * intros (devices' & list' & device & [= <-] & Hlist' & Hin & Hkind).
        rewrite Hlist in Hlist'. injection Hlist' as <-.
        assert (Hfilter : In device (List.filter is_videoinput list)).
        { apply filter_In. split; [done |]. by apply String.eqb_eq. }
        by destruct (List.filter is_videoinput list).
    + split; [done |]. split; [done |].
      intros (devices' & list' & device & [= <-] & Hlist' & _). congruence.
  - cbn. split; [done |]. split; [done |]. by intros (? & ? & ? & ? & _).
Qed.

(** ** The decode round-trip in detail *)

Lemma worker_released_stays promise events :
  foldl worker_deliver (worker_release promise) events = worker_release promise.
Proof.
  induction events as [| ev events IH]; [done |].
  cbn [foldl]. by destruct ev.
Qed.

(** X19.  The round-trip with a worker settles with the first event that
    concerns it: a message of type 'qrResult', an error event, or the
    timeout.  Messages of any other type are passed over.  From then on both
    listeners are removed and the timer is cleared, so no later event changes
    anything; until then all three stay in place.  The settlement is the one
    that [settle] gives. *)
Theorem worker_round_trip events :
  foldl worker_deliver worker_waiting events =
  match first_outcome worker_outcome events with
  | None => worker_waiting
  | Some o => worker_release (Some (settle o))
  end.
Proof.
  induction events as [| ev events IH]; [done |].
  cbn [foldl first_outcome].
  destruct ev as [type data | e |]; cbn [worker_deliver worker_waiting message_listener
                                         error_listener worker_timeout worker_outcome].
  - unfold onMessage. destruct (String.eqb type "qrResult"); cbn [negb]; [| exact IH].
    destruct data; apply worker_released_stays.
  - apply worker_released_stays.
  - apply worker_released_stays.
Qed.

Lemma detector_settled_stays promise events :
  detector_promise
    (foldl detector_deliver
       {| detect_pending := false; detector_timeout := false;
          detector_promise := promise |} events) = promise.
Proof. induction events as [| ev events IH]; [done |]. cbn [foldl]. by destruct ev. Qed.

Lemma detector_timed_out_stays r pending events :
  detector_promise
    (foldl detector_deliver
       {| detect_pending := pending; detector_timeout := false;
          detector_promise := Some r |} events) = Some r.
Proof.
  revert pending. induction events as [| ev events IH]; intros pending; [done |].
  cbn [foldl].
  destruct ev as [rawValues | e |], pending;
    cbn [detector_deliver detect_pending detector_timeout detector_promise];
    try apply IH.
  - destruct rawValues; apply detector_settled_stays.
  - destruct e; apply detector_settled_stays.
Qed.

(** X20.  The round-trip with a native detector settles with the first thing
    that happens, the answer of [detect()] or the timeout, as [settle] gives
    it, and nothing that follows changes the settlement.  There is one
    exception: when [detect()] rejects with [null] or [undefined] before the
    timeout, the [.catch] callback throws, the timer is cleared all the same,
    and the promise is never settled. *)
Theorem detector_round_trip events :
  detector_promise (foldl detector_deliver detector_waiting events) =
  match events with
  | [] => None
  | ev :: _ => option_map settle (detector_outcome ev)
  end.
Proof.
  destruct events as [| ev events]; [done |]. cbn [foldl].
  destruct ev as [rawValues | e |];
    cbn [detector_deliver detector_waiting detect_pending detector_timeout
         detector_promise].
  - rewrite detector_settled_stays. by destruct rawValues.
  - rewrite detector_settled_stays. by destruct e.
  - apply detector_timed_out_stays.
Qed.

(** ** Overlapping starts *)

Lemma start_settled_granted P w a getUserMedia c stream :
  mediaDevices P = Some getUserMedia ->
  constraintsToTry (Some (acq_camera a)) true !! 0 = Some c ->
  getUserMedia (camera_requests (tasks w)) c = Some stream ->
  _flashOn (this w) = false ->
  start_settled P a w = granted c stream (acq_facingModeGuess a) w.
Proof.
  intros Hmd Hc Hgranted Hflash.
  unfold start_settled, _getCameraStream.
  destruct (constraintsToTry (Some (acq_camera a)) true) as [| c0 others] eqn:Hcs;
    [done |]. injection Hc as ->.
  cbn [_getMatchingCameraStream]. rewrite Hmd, Hgranted.
  cbn [length foldl]. unfold start_then, granted, settled_facing_mode.
  cbn [this observe on_tasks on_video set_attached play _setVideoMirror _flashOn].
  by rewrite Hflash.
Qed.

(** X21.  Two [start()] calls whose camera requests overlap.  When two
    requests are pending and each is granted a stream, the video ends up with
    the second stream while the first keeps all its tracks; tearing the
    stream down afterwards, here by [pause(true)], stops and detaches the
    tracks of the second stream only.  The first stream is referred to by
    nothing and stays open. *)
Theorem overlapping_starts_keep_first_stream P w a1 a2 rest getUserMedia c1 c2
    first second :
  acquisitions (tasks w) = a1 :: a2 :: rest ->
  mediaDevices P = Some getUserMedia ->
  constraintsToTry (Some (acq_camera a1)) true !! 0 = Some c1 ->
  constraintsToTry (Some (acq_camera a2)) true !! 0 = Some c2 ->
  getUserMedia (camera_requests (tasks w)) c1 = Some first ->
  getUserMedia (camera_requests (tasks w) + 1) c2 = Some second ->
  stream_id first <> stream_id second ->
  _active (this w) = true ->
  _flashOn (this w) = false ->
  let w' := run P [CameraSettled; CameraSettled] w in
  let w'' := step P (Call_pause true) w' in
  srcObject (video w') = Some (stream_id second) /\
  getTracks w' (stream_id first) = stream_tracks first /\
  getTracks w' (stream_id second) = stream_tracks second /\
  stopped w' = stopped w /\
  srcObject (video w'') = None /\
  getTracks w'' (stream_id second) = [] /\
  getTracks w'' (stream_id first) = stream_tracks first /\
  (forall i, i ∈ stopped w'' <->
             i ∈ stopped w \/ exists t, t ∈ stream_tracks second /\ track_id t = i).
Proof.
  intros Hpending Hmd Hc1 Hc2 Hfirst Hsecond Hids Hactive Hflash. cbv zeta.
  unfold run. cbn [foldl]. cbn [step]. rewrite Hpending.
  rewrite (start_settled_granted P _ a1 getUserMedia c1 first) by done.
  set (w1 := granted c1 first (acq_facingModeGuess a1)
               (on_tasks (set_acquisitions (a2 :: rest)) w)).
  assert (Hw1 : acquisitions (tasks w1) = a2 :: rest /\
                camera_requests (tasks w1) = camera_requests (tasks w) + 1 /\
                this w1 = this w /\ stopped w1 = stopped w /\
                attached w1 = <[stream_id first := stream_tracks first]> (attached w)).
  { by unfold w1, granted. }
  destruct Hw1 as (Hacq1 & Hreq1 & Hthis1 & Hstopped1 & Hattached1).
  rewrite Hacq1.
  rewrite (start_settled_granted P _ a2 getUserMedia c2 second)
    by (cbn [tasks on_tasks camera_requests set_acquisitions this]; congruence).
  set (w2 := granted c2 second (acq_facingModeGuess a2)
               (on_tasks (set_acquisitions rest) w1)).
  assert (Hw2 : srcObject (video w2) = Some (stream_id second) /\
                this w2 = this w /\ stopped w2 = stopped w /\
                attached w2 =
                  <[stream_id second := stream_tracks second]>
                    (<[stream_id first := stream_tracks first]> (attached w))).
  { unfold w2, granted.
    cbn [video srcObject this stopped attached _setVideoMirror play on_video on_tasks
         set_attached observe set_srcObject set_video_paused set_transform].
    by rewrite Hthis1, Hstopped1, Hattached1. }
  destruct Hw2 as (Hsrc2 & Hthis2 & Hstopped2 & Hattached2).
  assert (Htracks_first : getTracks w2 (stream_id first) = stream_tracks first).
  { unfold getTracks. rewrite Hattached2, lookup_insert_ne by done.
    by rewrite lookup_insert_eq. }
  assert (Htracks_second : getTracks w2 (stream_id second) = stream_tracks second).
  { unfold getTracks. by rewrite Hattached2, lookup_insert_eq. }
  do 4 (split; [done |]).
  (* the teardown *)
  unfold pause. cbn [this on_this _active set_paused]. rewrite Hthis2, Hactive.
  cbn [negb fst]. unfold stopStream.
  cbn [video video_pause on_video on_this srcObject set_video_paused].
  rewrite Hsrc2.
  change (getTracks (video_pause (on_this (set_paused true) w2)) (stream_id second))
    with (getTracks w2 (stream_id second)).
  rewrite Htracks_second.
  set (w3 := video_pause (on_this (set_paused true) w2)).
  split; [done |].
  unfold getTracks at 1 2. cbn [attached on_video].
  fold (getTracks (stop_tracks (stream_id second) (stream_tracks second) w3)
          (stream_id second)).
  split; [| split].
  - rewrite getTracks_stop_tracks.
    change (getTracks w3 (stream_id second)) with (getTracks w2 (stream_id second)).
    rewrite Htracks_second. by apply filter_differs_from_own.
  - rewrite attached_stop_tracks by done. exact Htracks_first.
  - intros i. cbn [stopped on_video]. rewrite stopped_stop_tracks.
    change (stopped w3) with (stopped w2). by rewrite Hstopped2.
Qed.

Lemma overlapping_starts_keep_first_stream_witness :
  let w := run generous [Call_start; Call_pause false; Call_start]
             (constructor "environment" false) in
  let w' := run generous [CameraSettled; CameraSettled] w in
  let w'' := step generous (Call_pause true) w' in
  srcObject (video w'') = None /\
  getTracks w'' (stream_id (fresh_stream 0)) = stream_tracks (fresh_stream 0).
Proof.
  cbv zeta.
  destruct (overlapping_starts_keep_first_stream generous
              (run generous [Call_start; Call_pause false; Call_start]
                 (constructor "environment" false))
              (acquisition_for "environment") (acquisition_for "environment") []
              (fun n _ => Some (fresh_stream n))
              {| min_width := Some 1024%Z; facingMode := Some (Exact "environment");
                 deviceId := None |}
              {| min_width := Some 1024%Z; facingMode := Some (Exact "environment");
                 deviceId := None |}
              (fresh_stream 0) (fresh_stream 1))
    as (_ & _ & _ & _ & Hsrc & _ & Hfirst & _).
  - vm_compute. reflexivity.
  - reflexivity.
  - vm_compute. reflexivity.
  - vm_compute. reflexivity.
  - vm_compute. reflexivity.
  - vm_compute. reflexivity.
  - vm_compute. lia.
  - vm_compute. reflexivity.
  - vm_compute. reflexivity.
  - split; [exact Hsrc | exact Hfirst].
Defined.

(** ** Falling back to any camera *)

Lemma getMatchingCameraStream_rejected P getUserMedia constraints n :
  mediaDevices P = Some getUserMedia ->
  (forall j c, constraints !! j = Some c -> getUserMedia (n + j) c = None) ->
  _getMatchingCameraStream P constraints n = (constraints, Err CAMERA_NOT_FOUND).
Proof.
  intros Hmd Hnone.
  pose proof (getMatchingCameraStream_spec P getUserMedia constraints n Hmd) as Hspec.
  destruct (_getMatchingCameraStream P constraints n) as [sent [stream | e]].
  - destruct Hspec as (k & c & Hk & Hgranted & _). rewrite (Hnone k c Hk) in Hgranted.
    discriminate.
  - by destruct Hspec as (-> & -> & _).
Qed.

Lemma getMatchingCameraStream_granted P getUserMedia constraints n k c stream :
  mediaDevices P = Some getUserMedia ->
  constraints !! k = Some c ->
  (forall j c', j < k -> constraints !! j = Some c' -> getUserMedia (n + j) c' = None) ->
  getUserMedia (n + k) c = Some stream ->
  _getMatchingCameraStream P constraints n = (take (S k) constraints, Ok stream).
Proof.
  intros Hmd Hk Hbefore Hgranted.
  pose proof (getMatchingCameraStream_spec P getUserMedia constraints n Hmd) as Hspec.
  destruct (_getMatchingCameraStream P constraints n) as [sent [stream' | e]].
  - destruct Hspec as (k' & c' & Hk' & Hgranted' & -> & Hbefore').
    destruct (Nat.lt_trichotomy k' k) as [Hlt | [-> | Hgt]].
    + rewrite (Hbefore k' c' Hlt Hk') in Hgranted'. discriminate.
    + congruence.
    + rewrite (Hbefore' k c Hgt Hk) in Hgranted. discriminate.
  - destruct Hspec as (_ & _ & Hnone). rewrite (Hnone k c Hk) in Hgranted. discriminate.
Qed.

(** X22.  Falling back to any camera.  When the three requests with the
    exact preference are refused and one of the three requests without a
    preference is granted, [start()] takes that stream: it has asked for the
    three exact entries and then for the plain entries up to the granted
    one, the stream is the video's source and plays, and the facing mode it
    mirrors by is read from the label of the stream or else is the flipped
    guess.  So after a refused 'environment' preference a camera whose label
    tells nothing is shown mirrored. *)
Theorem start_falls_back P w a rest getUserMedia k c stream :
  acquisitions (tasks w) = a :: rest ->
  mediaDevices P = Some getUserMedia ->
  (forall j c', constraintsToTry (Some (acq_camera a)) true !! j = Some c' ->
                getUserMedia (camera_requests (tasks w) + j) c' = None) ->
  width_ladder !! k = Some c ->
  (forall j c', j < k -> width_ladder !! j = Some c' ->
                getUserMedia (camera_requests (tasks w) + 3 + j) c' = None) ->
  getUserMedia (camera_requests (tasks w) + 3 + k) c = Some stream ->
  _flashOn (this w) = false ->
  let w' := step P CameraSettled w in
  let facingMode := settled_facing_mode stream (flip_guess (acq_facingModeGuess a)) in
  trace w' =
    trace w
    ++ map GetUserMedia
         (constraintsToTry (Some (acq_camera a)) true ++ take (S k) width_ladder) /\
  camera_requests (tasks w') = camera_requests (tasks w) + 3 + S k /\
  this w' = this w /\
  srcObject (video w') = Some (stream_id stream) /\
  getTracks w' (stream_id stream) = stream_tracks stream /\
  paused (video w') = false /\
  transform (video w') =
    (if String.eqb facingMode "user" then "scaleX(-1)" else "scaleX(1)")%string /\
  (_getFacingMode stream = None -> acq_facingModeGuess a = Some "environment"%string ->
   transform (video w') = "scaleX(-1)"%string).
Proof.
  intros Hpending Hmd Hrefused Hk Hbefore Hgranted Hflash. cbv zeta.
  cbn [step]. rewrite Hpending.
  unfold start_settled, _getCameraStream.
  cbn [tasks on_tasks camera_requests set_acquisitions].
  rewrite (getMatchingCameraStream_rejected P getUserMedia) by done.
  cbv beta iota zeta. rewrite constraintsToTry_length.
  change (constraintsToTry None false) with width_ladder.
  rewrite (getMatchingCameraStream_granted P getUserMedia width_ladder _ k c stream)
    by done.
  cbv beta iota zeta.
  set (sent := constraintsToTry (Some (acq_camera a)) true ++ take (S k) width_ladder).
  assert (Hlen : length sent = 3 + S k).
  { unfold sent. rewrite length_app, constraintsToTry_length, length_take.
    apply lookup_lt_Some in Hk. lia. }
  destruct (observe_requests sent
              (on_tasks (set_camera_requests (camera_requests (tasks w) + length sent))
                 (on_tasks (set_acquisitions rest) w)))
    as (Htrace & Hthis & Hvideo & Htasks & Hattached & Hstopped & Hhidden).
  cbv zeta in Htrace, Hthis, Hvideo, Htasks, Hattached, Hstopped, Hhidden.
  set (w1 := foldl (fun w c => observe (GetUserMedia c) w) _ sent) in *.
  assert (Hflash1 : _flashOn (this w1) = false) by (by rewrite Hthis).
  unfold start_then.
  cbn [this observe on_tasks on_video set_attached play _setVideoMirror _flashOn].
  rewrite Hflash1.
  change (match _getFacingMode stream with
          | Some mode => mode
          | None => match flip_guess (acq_facingModeGuess a) with
                    | Some g => g
                    | None => "environment"%string
                    end
          end) with (settled_facing_mode stream (flip_guess (acq_facingModeGuess a))).
  unfold getTracks, _setVideoMirror, play.
  cbn [trace tasks this video attached on_video set_attached srcObject paused transform
       set_srcObject set_video_paused set_transform].
  rewrite Htrace, Htasks, Hthis, lookup_insert_eq.
  cbn [trace tasks this on_tasks camera_requests set_camera_requests set_acquisitions
       default].
  rewrite Hlen.
  split; [done |]. split; [lia |]. do 4 (split; [done |]). split.
  - by destruct (String.eqb (settled_facing_mode stream (flip_guess (acq_facingModeGuess a)))
                   "user").
  - intros Hlabel Hguess. unfold settled_facing_mode. by rewrite Hlabel, Hguess.
Qed.

Lemma start_falls_back_witness :
  transform
    (video (step front_only CameraSettled (start (constructor "environment" false))))
  = "scaleX(-1)"%string.
Proof.
  destruct (start_falls_back front_only (start (constructor "environment" false))
              (acquisition_for "environment") []
              (fun _ c => match facingMode c with Some _ => None | None => Some plain_camera end)
              0 {| min_width := Some 1024%Z; facingMode := None; deviceId := None |}
              plain_camera)
    as (_ & _ & _ & _ & _ & _ & _ & Hmirror).
  - reflexivity.
  - reflexivity.
  - intros [| [| [| j]]] c'; cbn; intros [= <-]; reflexivity.
  - reflexivity.
  - intros j c' Hj. lia.
  - reflexivity.
  - reflexivity.
  - apply Hmirror; reflexivity.
Defined.

(** ** Loading an image in detail *)

Lemma loadImage_settled_stays origin url image r urls events :
  let settled :=
    {| loading := {| load_listener := false; image_error_listener := false;
                     load_promise := Some r |};
       object_urls := urls;
       image_promise := Some (match r with Ok _ => Ok image | Err e => Err e end) |} in
  foldl (loadImage_deliver origin url image) settled events = settled.
Proof.
  cbv zeta. induction events as [| ev events IH]; [done |]. cbn [foldl].
  by destruct ev.
Qed.

(** X23.  Loading an image from a [File], [Blob], [URL] or string.  The
    returned promise settles with the first of the element's load and error
    events, unless the element is complete with a width from the start; from
    then on both listeners are removed and nothing changes; with no event it
    stays pending, there is no timeout.  The object URL created for a [File]
    or [Blob] is revoked exactly when the load succeeds: after a load error
    it stays registered whatever happens next.  No other object URL is
    touched. *)
Theorem loadImage_object_url origin url image complete naturalWidth urls events :
  let s :=
    foldl (loadImage_deliver origin url image)
      (loadImage_call origin url image complete naturalWidth urls) events in
  let outcome :=
    if complete && negb (naturalWidth =? 0)%Z then Some true
    else match events with
         | [] => None
         | LoadFired :: _ => Some true
         | ErrorFired :: _ => Some false
         end in
  image_promise s =
    match outcome with
    | Some true => Some (Ok image)
    | Some false => Some (Err IMAGE_LOAD_ERROR)
    | None => None
    end /\
  (origin = FileOrBlob -> (url ∈ object_urls s <-> outcome <> Some true)) /\
  (forall other, other <> url \/ origin = UrlOrString ->
                 (other ∈ object_urls s <-> other ∈ urls)) /\
  (outcome <> None ->
   load_listener (loading s) = false /\ image_error_listener (loading s) = false).
Proof.
  cbv zeta. unfold loadImage_call, awaitImageLoad.
  set (created := match origin with FileOrBlob => {[url]} ∪ urls | UrlOrString => urls end).
  set (revoked := match origin with FileOrBlob => created ∖ {[url]} | UrlOrString => created end).
  assert (Hcreated : (origin = FileOrBlob -> url ∈ created) /\
                     forall other, other <> url \/ origin = UrlOrString ->
                                   (other ∈ created <-> other ∈ urls)).
  { subst created. destruct origin.
    - split; [intros _; apply elem_of_union_l; by apply elem_of_singleton |].
      intros other [Hother | ?]; [| done].
      rewrite elem_of_union, elem_of_singleton. tauto.
    - split; [done |]. tauto. }
  assert (Hrevoked : (origin = FileOrBlob -> url ∉ revoked) /\
                     forall other, other <> url \/ origin = UrlOrString ->
                                   (other ∈ revoked <-> other ∈ urls)).
  { destruct Hcreated as [_ Hother]. subst revoked. destruct origin.
    - split.
      + intros _. rewrite elem_of_difference, elem_of_singleton. tauto.
      + intros other Hcase. rewrite elem_of_difference, elem_of_singleton.
        rewrite (Hother other Hcase). destruct Hcase as [? | ?]; [tauto | done].
    - split; [done |]. exact Hother. }
  destruct Hcreated as [Hurl_created Hother_created].
  destruct Hrevoked as [Hurl_revoked Hother_revoked].
  assert (Hok : forall l,
    load_promise l = Some (Ok tt) ->
    loadImage_then origin url image
      {| loading := l; object_urls := created; image_promise := None |}
    = {| loading := l; object_urls := revoked; image_promise := Some (Ok image) |}).
  { intros l Hl. unfold loadImage_then. cbn [image_promise loading object_urls].
    by rewrite Hl. }
  assert (Herr : forall l,
    load_promise l = Some (Err IMAGE_LOAD_ERROR) ->
    loadImage_then origin url image
      {| loading := l; object_urls := created; image_promise := None |}
    = {| loading := l; object_urls := created;
         image_promise := Some (Err IMAGE_LOAD_ERROR) |}).
  { intros l Hl. unfold loadImage_then. cbn [image_promise loading object_urls].
    by rewrite Hl. }
  assert (Hwait :
    loadImage_then origin url image
      {| loading := {| load_listener := true; image_error_listener := true;
                       load_promise := None |};
         object_urls := created; image_promise := None |}
    = {| loading := {| load_listener := true; image_error_listener := true;
                       load_promise := None |};
         object_urls := created; image_promise := None |}) by done.
  assert (Hdeliver : forall l U p ev,
    loadImage_deliver origin url image
      {| loading := l; object_urls := U; image_promise := p |} ev
    = loadImage_then origin url image
        {| loading := image_deliver l ev; object_urls := U; image_promise := p |})
    by done.
  clearbody created revoked.
  destruct (complete && negb (naturalWidth =? 0)%Z).
  - rewrite Hok by done.
    rewrite (loadImage_settled_stays origin url image (Ok tt)).
    cbn [image_promise object_urls loading load_listener image_error_listener].
    split; [done |]. split; [| split; [exact Hother_revoked | done]].
    intros Horigin. split; [by intros ?%Hurl_revoked | done].
  - rewrite Hwait. destruct events as [| [|] events]; cbn [foldl].
    + cbn [image_promise object_urls loading load_promise].
      split; [done |]. split; [| split; [exact Hother_created | done]].
      intros Horigin. split; [done | intros _; by apply Hurl_created].
    + rewrite Hdeliver. cbn [image_deliver load_listener].
      rewrite Hok by done. unfold onLoad. cbn [load_promise].
      rewrite (loadImage_settled_stays origin url image (Ok tt)).
      cbn [image_promise object_urls loading load_listener image_error_listener].
      split; [done |]. split; [| split; [exact Hother_revoked | done]].
      intros Horigin. split; [by intros ?%Hurl_revoked | done].
    + rewrite Hdeliver. cbn [image_deliver image_error_listener].
      rewrite Herr by done. unfold image_onError. cbn [load_promise].
      rewrite (loadImage_settled_stays origin url image (Err IMAGE_LOAD_ERROR)).
      cbn [image_promise object_urls loading load_listener image_error_listener].
      split; [done |]. split; [| split; [exact Hother_created | done]].
      intros Horigin. split; [done | intros _; by apply Hurl_created].
Qed.

